(** * A shallow embedding of the tool-calling agent of [main.py]

    The development follows the source file top-down: text helpers, the
    outside world the agent talks to (file system, process environment,
    shell, HTTP, chat provider), the tool executors of [CodingAgent], the
    dispatcher [execute_tool] and the orchestration loop
    [process_user_input].

    Conventions.
    - A Python [str] is a [string] holding its UTF-8 encoding, a lone
      surrogate being encoded like any other code point (three bytes), so
      byte-wise lexicographic comparison is Python's code-point comparison
      and every literal of the source (emoji included) is written as it
      stands.
    - A Python call that may raise returns a [result]; [try ... except
      Exception as e] is [try_except]. Only exceptions deriving from
      [Exception] are modelled (asynchronous interrupts are not).
    - Everything outside the process is reached through a [host] record of
      oracles; every call to the shell, to HTTP or to the chat provider is
      logged in the [trace] of the state, oldest first.
    - The file system is a map in the state. What the operating system
      refuses beyond what the map records (permissions, limits, devices),
      and what depends on the interpreter or the locale (the encoder of
      written texts, [repr], the wording of some errors), is the host's
      too; a theorem that needs a call to go through says so.
    - Printing, colour initialisation and the spinner carry no data and are
      left out. *)

From Stdlib Require Import ZArith NArith Ascii String.
From stdpp Require Import base option list strings gmap sorting pretty.

Local Open Scope Z_scope.

(** ** Text helpers *)

Definition nl : string := String "010"%char "".
Definition esc : string := String "027"%char "".

(** colorama's constants. *)
Module Fore.
Definition RED : string := esc +:+ "[31m".
Definition GREEN : string := esc +:+ "[32m".
Definition YELLOW : string := esc +:+ "[33m".
Definition CYAN : string := esc +:+ "[36m".
End Fore.

Module Style.
Definition RESET_ALL : string := esc +:+ "[0m".
End Style.

(** [sep.join(items)] *)
Fixpoint join (sep : string) (items : list string) : string :=
  match items with
  | [] => ""
  | [x] => x
  | x :: rest => x +:+ sep +:+ join sep rest
  end.

(** [len(s)]: the number of code points, that is of bytes that are not
    UTF-8 continuation bytes (10xxxxxx). *)
Definition is_continuation (c : ascii) : bool :=
  N.eqb (N.land (N_of_ascii c) 192) 128.

Fixpoint len (s : string) : nat :=
  match s with
  | EmptyString => O
  | String c s' => if is_continuation c then len s' else S (len s')
  end.

(** [str(n)] for a length or a count. *)
Definition str_of_nat (n : nat) : string := pretty n.

(** *** [str.split()] with no argument

    Splits on runs of characters for which [str.isspace()] holds: U+0009 to
    U+000D, U+001C to U+0020, U+0085, U+00A0, U+1680, U+2000 to U+200A,
    U+2028, U+2029, U+202F, U+205F and U+3000. [ws_width s] is the number of
    bytes of the whitespace character at the head of [s], or 0. *)
Definition in_range (lo hi n : N) : bool := (N.leb lo n && N.leb n hi)%bool.

Definition ws_width (s : string) : nat :=
  match s with
  | EmptyString => O
  | String c rest =>
    let n := N_of_ascii c in
    if (in_range 9 13 n || in_range 28 32 n)%bool then 1%nat
    else
      match rest with
      | String d rest' =>
        let m := N_of_ascii d in
        if N.eqb n 194 then
          if (N.eqb m 133 || N.eqb m 160)%bool then 2%nat else O
        else
          match rest' with
          | String e _ =>
            let k := N_of_ascii e in
            if (N.eqb n 225 && N.eqb m 154 && N.eqb k 128)%bool then 3%nat
            else if (N.eqb n 226 && N.eqb m 128 &&
                     (in_range 128 138 k || in_range 168 169 k || N.eqb k 175))%bool
                 then 3%nat
            else if (N.eqb n 226 && N.eqb m 129 && N.eqb k 159)%bool then 3%nat
            else if (N.eqb n 227 && N.eqb m 128 && N.eqb k 128)%bool then 3%nat
            else O
          | EmptyString => O
          end
      | EmptyString => O
      end
  end.

Definition flush (word : string) : list string :=
  match word with EmptyString => [] | _ => [word] end.

(** [skip] counts the bytes still to drop of the whitespace character being
    read; [word] is the token read so far. *)
Fixpoint split_from (s : string) (skip : nat) (word : string) : list string :=
  match s with
  | EmptyString => flush word
  | String c s' =>
    match skip with
    | S k => split_from s' k word
    | O =>
      match ws_width s with
      | O => split_from s' O (word +:+ String c "")
      | S k => flush word ++ split_from s' k ""
      end
    end
  end.

Definition split (s : string) : list string := split_from s O "".

(** ** Exceptions and results *)

Record exn := Exception { exn_type : string; exn_str : string }.

Inductive result (A : Type) :=
| Ok (a : A)
| Raise (e : exn).
Arguments Ok {A} a.
Arguments Raise {A} e.

(** ** Conversation data *)

(** One entry of [response_message.tool_calls]: [tool_call.id],
    [tool_call.function.name], [tool_call.function.arguments]. *)
Record tool_call := {
  tc_id : string;
  tc_name : string;
  tc_arguments : string
}.

Inductive role := system | user | assistant | tool.

Global Instance role_eq_dec : EqDecision role.
Proof. solve_decision. Defined.

(** The dictionaries kept in [self.messages]; a key a dictionary does not
    have is [None]. *)
Record message := {
  msg_role : role;
  msg_content : option string;
  msg_tool_calls : option (list tool_call);
  msg_tool_call_id : option string;
  msg_name : option string
}.

(** [completion.choices[0].message] *)
Record chat_message := {
  cm_content : option string;
  cm_tool_calls : option (list tool_call)
}.

(** [completion.choices], each choice reduced to its message. *)
Definition completion := list chat_message.

(** Values a decoded JSON argument can be. Numbers that are not integers,
    lists and nested objects are only ever formatted or rejected by the
    executors, so they are kept as their type name and their [str()]. *)
Inductive pyval :=
| VNone
| VBool (b : bool)
| VInt (z : Z)
| VStr (s : string)
| VOther (type_name repr : string).

(** What [json.loads] returns for a tool call's argument text: an object
    (key order kept, keys unique) or some other value. *)
Inductive pyjson :=
| JDict (items : list (string * pyval))
| JVal (v : pyval).

(** ** The outside world *)

(** A resolved absolute path: its components below the root. *)
Abbreviation path := (list string).

Inductive entry :=
| File (data : string)
| Dir.

(** [subprocess.CompletedProcess] with [capture_output=True, text=True]. *)
Record completed_process := {
  returncode : Z;
  stdout : string;
  stderr : string
}.

(** One result of the search provider, [item.get] defaults not yet applied;
    the fields are texts, as the provider documents them. *)
Record search_item := {
  item_title : option string;
  item_url : option string;
  item_text : option string
}.

(** [requests.Response]: the status and what [response.json()] gives; a body
    without a ["results"] key is [None]. A body of another shape makes
    [response.json()] or the formatting raise, which is the [Raise] case. *)
Record response := {
  status_code : Z;
  response_json : result (option (list search_item))
}.

(** The JSON body of the search request. *)
Record search_request := {
  sr_query : pyval;
  sr_num_results : Z;
  sr_use_autoprompt : bool
}.

Inductive event :=
| EvSubprocess (cmd : string) (shell : bool)
| EvHttpPost (url : string) (headers : list (string * string)) (body : search_request)
| EvChat (model : string) (messages : list message) (tool_choice : string).

Record state := {
  messages : list message;          (* self.messages *)
  fs : gmap path entry;             (* the file system *)
  environ : gmap string string;     (* os.environ *)
  trace : list event                (* calls that left the process *)
}.

(** The errors of the operating system the tools can meet; [EOTHER] is any
    further one, given by the class of its exception and its text. *)
Inductive errno :=
| ENOENT | ENOTDIR | EEXIST | EISDIR
| EACCES | ENAMETOOLONG | EROFS | ENOSPC
| EOTHER (exception strerror : string).

(** The requests the tools make to the operating system, each on a path. *)
Inductive syscall :=
| SysStat (p : path)
| SysMkdir (p : path)
| SysScandir (p : path)
| SysOpenRead (p : path)
| SysRead (p : path)
| SysOpenWrite (p : path)
| SysWrite (p : path).


(** The collaborators that are not in the source: each is a function of the
    state it is called in (so of the whole history), arbitrary otherwise.

    [os_refuses] is what the operating system refuses for a reason the map
    of the file system does not record: permissions, limits on names and
    paths, a device that is read-only or full, an input/output error.
    [torn_write] is what a refused write leaves in the file.
    [is_dir_ignores] tells the errors of [os.stat], other than a missing
    path, for which [Path.is_dir] answers [False] instead of raising (none
    but two rare ones before Python 3.13, all of them since).
    [write_encode] is the encoder of [write_text], that of the locale: it
    gives the text that reading the stored bytes as UTF-8 yields, before
    newline translation, or the exception of a text it cannot encode.
    [fsencode_error] is what [os.fsencode] raises for a path text holding a
    surrogate, if anything. [py_repr] is [repr] on texts. [module_name] is
    the name the file runs under, [__main__] as a script. [keyword_hint]
    is what the interpreter appends to its text for an unexpected keyword,
    given the keyword and the parameter names: nothing before Python 3.13,
    the suggestion of a close name, if there is one, since. *)
Record host := {
  subprocess_run : state → string → result completed_process * gmap path entry;
  requests_post : state → string → list (string * string) → search_request → result response;
  chat_completions_create : state → string → list message → result completion;
  glob_glob : state → pyval → result (list string);
  json_loads : string → result pyjson;
  py_int : pyval → result Z;
  os_refuses : state → syscall → option errno;
  torn_write : state → path → string → string;
  is_dir_ignores : errno → bool;
  write_encode : string → result string;
  fsencode_error : path → string → option exn;
  py_repr : string → string;
  module_name : string;
  keyword_hint : string → list string → string
}.

(** ** The monad of the agent's methods *)

Definition M (A : Type) : Type := state → result A * state.

Global Instance M_ret : MRet M := λ A a st, (Ok a, st).
Global Instance M_bind : MBind M := λ A B f m st,
  match m st with
  | (Ok a, st') => f a st'
  | (Raise e, st') => (Raise e, st')
  end.

Definition raise {A} (e : exn) : M A := λ st, (Raise e, st).

Definition lift {A} (r : result A) : M A := λ st, (r, st).

(** [try: body except Exception as e: handler e] *)
Definition try_except {A} (body : M A) (handler : exn → M A) : M A := λ st,
  match body st with
  | (Ok a, st') => (Ok a, st')
  | (Raise e, st') => handler e st'
  end.

Definition get_state : M state := λ st, (Ok st, st).

(** The three ways a method changes the state. *)
Definition push_event (ev : event) (st : state) : state :=
  {| messages := messages st; fs := fs st; environ := environ st;
     trace := trace st ++ [ev] |}.

Definition put_fs (fs' : gmap path entry) (st : state) : state :=
  {| messages := messages st; fs := fs'; environ := environ st;
     trace := trace st |}.

Definition push_message (m : message) (st : state) : state :=
  {| messages := messages st ++ [m]; fs := fs st; environ := environ st;
     trace := trace st |}.

Definition set_fs (fs' : gmap path entry) : M unit := λ st,
  (Ok (), put_fs fs' st).

(** [self.messages.append(m)] *)
Definition append_message (m : message) : M unit := λ st,
  (Ok (), push_message m st).

(** ** Paths and the file system

    The file system is a finite map from resolved paths to entries; the root
    is always a directory. There are no symbolic links, so
    [Path.resolve()] is the lexical normalisation that [os.path.realpath]
    performs. The [data] of a [File] is its text as decoding it as UTF-8
    with replacement yields it, before newline translation. The map holds
    what exists; what the operating system refuses beyond that is the
    host's [os_refuses]. *)

Fixpoint split_on (sep : ascii) (s word : string) : list string :=
  match s with
  | EmptyString => [word]
  | String c s' =>
    if Ascii.eqb c sep then word :: split_on sep s' ""
    else split_on sep s' (word +:+ String c "")
  end.

(** The components of a path text, empty ones included. *)
Definition components (p : string) : list string := split_on "/"%char p "".

Definition is_absolute (p : string) : bool :=
  match p with String c _ => Ascii.eqb c "/"%char | EmptyString => false end.

Definition resolve_step (cur : path) (name : string) : path :=
  if decide (name = "" ∨ name = ".") then cur
  else if decide (name = "..") then removelast cur
  else cur ++ [name].

(** The path that [cwd / p] names, [.] and [..] worked out. *)
Definition normal_form (cwd : path) (p : string) : path :=
  foldl resolve_step (if is_absolute p then [] else cwd) (components p).

(** A text holds the character NUL. *)
Fixpoint has_nul (s : string) : bool :=
  match s with
  | EmptyString => false
  | String c s' => (Ascii.eqb c "000"%char || has_nul s')%bool
  end.

(** A text holds a surrogate code point: the byte ED followed by a byte
    from A0 on. *)
Fixpoint has_surrogate (s : string) : bool :=
  match s with
  | EmptyString => false
  | String c s' =>
    (match s' with
     | String d _ => N.eqb (N_of_ascii c) 237 && N.leb 160 (N_of_ascii d)
     | EmptyString => false
     end || has_surrogate s')%bool
  end.

(** [str(path)] of a resolved path. *)
Definition path_str (p : path) : string :=
  match p with [] => "/" | _ => "/" +:+ join "/" p end.

Definition errno_type (e : errno) : string :=
  match e with
  | ENOENT => "FileNotFoundError"
  | ENOTDIR => "NotADirectoryError"
  | EEXIST => "FileExistsError"
  | EISDIR => "IsADirectoryError"
  | EACCES => "PermissionError"
  | ENAMETOOLONG | EROFS | ENOSPC => "OSError"
  | EOTHER exception _ => exception
  end.

Definition errno_text (e : errno) : string :=
  match e with
  | ENOENT => "[Errno 2] No such file or directory"
  | ENOTDIR => "[Errno 20] Not a directory"
  | EEXIST => "[Errno 17] File exists"
  | EISDIR => "[Errno 21] Is a directory"
  | EACCES => "[Errno 13] Permission denied"
  | ENAMETOOLONG => "[Errno 36] File name too long"
  | EROFS => "[Errno 30] Read-only file system"
  | ENOSPC => "[Errno 28] No space left on device"
  | EOTHER _ strerror => strerror
  end.

(** The error of a call on an open file: it names no file. *)
Definition io_error (e : errno) : exn :=
  Exception (errno_type e) (errno_text e).

Definition node_at (fs : gmap path entry) (p : path) : option entry :=
  match p with [] => Some Dir | _ => fs !! p end.

(** Path lookup as the kernel does it: from [cur], one component at a
    time, every component but the last having to be a directory. *)
Fixpoint walk (fs : gmap path entry) (cur : path) (rest : list string)
  : errno + entry :=
  match rest with
  | [] => match node_at fs cur with Some e => inr e | None => inl ENOENT end
  | n :: rest' =>
    match node_at fs cur with
    | None => inl ENOENT
    | Some (File _) => inl ENOTDIR
    | Some Dir => walk fs (cur ++ [n]) rest'
    end
  end.

(** What a path leads to in the map. *)
Definition os_stat (fs : gmap path entry) (p : path) : errno + entry :=
  walk fs [] p.


(** [os.mkdir(p)], when the request is not refused. *)
Definition os_mkdir (fs : gmap path entry) (p : path)
  : errno + gmap path entry :=
  match p with
  | [] => inl EEXIST
  | _ =>
    match os_stat fs (removelast p) with
    | inl e => inl e
    | inr (File _) => inl ENOTDIR
    | inr Dir =>
      match fs !! p with
      | Some _ => inl EEXIST
      | None => inr (<[p := Dir]> fs)
      end
    end
  end.

(** Opening [p] for writing, when the request is not refused: the file is
    created, or emptied, and holds [data] from then on. *)
Definition os_write (fs : gmap path entry) (p : path) (data : string)
  : errno + gmap path entry :=
  match p with
  | [] => inl EISDIR
  | _ =>
    match os_stat fs (removelast p) with
    | inl e => inl e
    | inr (File _) => inl ENOTDIR
    | inr Dir =>
      match fs !! p with
      | Some Dir => inl EISDIR
      | _ => inr (<[p := File data]> fs)
      end
    end
  end.

(** Universal newlines, the default of a text-mode read: [\r\n] and a lone
    [\r] are read as [\n]. *)
Fixpoint universal_newlines (s : string) : string :=
  match s with
  | EmptyString => ""
  | String c s' =>
    if Ascii.eqb c "013"%char then
      match s' with
      | String d _ =>
        if Ascii.eqb d "010"%char then universal_newlines s'
        else String "010"%char (universal_newlines s')
      | EmptyString => nl
      end
    else String c (universal_newlines s')
  end.

(** The names of the entries stored right below [p], in the order the map
    enumerates them. *)
Definition dir_names (fs : gmap path entry) (p : path) : list string :=
  omap (λ kv, if decide (removelast kv.1 = p) then last kv.1 else None)
       (map_to_list fs).

Section FileSystem.
Context (H : host).

(** [str(e)] of an [OSError] that names a file: the file name is shown by
    [repr]. *)
Definition os_error (e : errno) (p : path) : exn :=
  Exception (errno_type e) (errno_text e +:+ ": " +:+ py_repr H (path_str p)).

(** [(cwd / p).resolve()] for a text [p]. Every component is looked at
    with [os.lstat], whose errors are ignored but for those of a path text
    the system cannot take: one that does not encode, one with a NUL. *)
Definition resolve (cwd : path) (p : string) : result path :=
  match (if has_surrogate p then fsencode_error H cwd p else None) with
  | Some e => Raise e
  | None =>
    if has_nul p then Raise (Exception "ValueError" "embedded null byte")
    else Ok (normal_form cwd p)
  end.

(** [os.stat(p)] *)
Definition sys_stat (st : state) (p : path) : errno + entry :=
  match os_refuses H st (SysStat p) with
  | Some e => inl e
  | None => os_stat (fs st) p
  end.

(** [Path.is_dir()]: [False] for a path that is missing, or below a file;
    another error of [os.stat] is ignored or raised, as the version of
    Python has it. *)
Definition path_is_dir (st : state) (p : path) : result bool :=
  match sys_stat st p with
  | inr Dir => Ok true
  | inr (File _) => Ok false
  | inl ENOENT | inl ENOTDIR => Ok false
  | inl e => if is_dir_ignores H e then Ok false else Raise (os_error e p)
  end.

(** [os.mkdir(p)]: the error, if any. *)
Definition sys_mkdir (p : path) : M (option errno) :=
  st ← get_state;
  match os_refuses H st (SysMkdir p) with
  | Some e => mret (Some e)
  | None =>
    match os_mkdir (fs st) p with
    | inl e => mret (Some e)
    | inr fs' => _ ← set_fs fs'; mret None
    end
  end.

(** The handler [except OSError] of [Path.mkdir]: an error is dropped when
    the path is a directory. *)
Definition unless_is_dir (e : errno) (p : path) : M unit :=
  st ← get_state;
  is_directory ← lift (path_is_dir st p);
  if (is_directory : bool) then mret () else raise (os_error e p).

(** [Path.mkdir(parents=False, exist_ok=True)] *)
Definition mkdir_exist_ok (p : path) : M unit :=
  r ← sys_mkdir p;
  match r with
  | None => mret ()
  | Some ENOENT => raise (os_error ENOENT p)
  | Some e => unless_is_dir e p
  end.

(** [Path.mkdir(parents=True, exist_ok=True)], on the reversed path so that
    the recursive call on [self.parent] is on the tail. *)
Fixpoint mkdir_parents (rp : list string) : M unit :=
  r ← sys_mkdir (rev rp);
  match r with
  | None => mret ()
  | Some ENOENT =>
    match rp with
    | [] => raise (os_error ENOENT [])
    | _ :: rparent =>
      _ ← mkdir_parents rparent;
      mkdir_exist_ok (rev rp)
    end
  | Some e => unless_is_dir e (rev rp)
  end.

(** [open(p, 'w')]: the file is created or emptied. *)
Definition open_write (p : path) : M unit :=
  st ← get_state;
  match os_refuses H st (SysOpenWrite p) with
  | Some e => raise (os_error e p)
  | None =>
    match os_write (fs st) p "" with
    | inl e => raise (os_error e p)
    | inr fs' => set_fs fs'
    end
  end.

(** Writing the encoded text to the open file and closing it; a write the
    system refuses leaves in the file what got there. *)
Definition write_close (p : path) (encoded : string) : M unit :=
  st ← get_state;
  match os_refuses H st (SysWrite p) with
  | Some e =>
    _ ← set_fs (<[p := File (torn_write H st p encoded)]> (fs st));
    raise (io_error e)
  | None => set_fs (<[p := File encoded]> (fs st))
  end.

(** [Path.read_text(encoding='utf-8', errors='replace')] *)
Definition read_text (st : state) (p : path) : result string :=
  match os_refuses H st (SysOpenRead p) with
  | Some e => Raise (os_error e p)
  | None =>
    match os_stat (fs st) p with
    | inr (File data) =>
      match os_refuses H st (SysRead p) with
      | Some e => Raise (io_error e)
      | None => Ok (universal_newlines data)
      end
    | inr Dir => Raise (os_error EISDIR p)
    | inl e => Raise (os_error e p)
    end
  end.

(** [list(Path.iterdir())]: the names of the entries of the directory. *)
Definition iterdir (st : state) (p : path) : result (list string) :=
  match os_refuses H st (SysScandir p) with
  | Some e => Raise (os_error e p)
  | None =>
    match os_stat (fs st) p with
    | inr Dir => Ok (dir_names (fs st) p)
    | inr (File _) => Raise (os_error ENOTDIR p)
    | inl e => Raise (os_error e p)
    end
  end.

End FileSystem.

(** ** Python values as the executors use them *)

Definition py_str (v : pyval) : string :=
  match v with
  | VNone => "None"
  | VBool true => "True"
  | VBool false => "False"
  | VInt z => pretty z
  | VStr s => s
  | VOther _ r => r
  end.

Definition py_type (v : pyval) : string :=
  match v with
  | VNone => "NoneType"
  | VBool _ => "bool"
  | VInt _ => "int"
  | VStr _ => "str"
  | VOther t _ => t
  end.

Definition TypeError (msg : string) : exn := Exception "TypeError" msg.

(** [self.current_directory / path]: only a text can be joined. *)
Definition truediv (v : pyval) : result string :=
  match v with
  | VStr s => Ok s
  | _ => Raise (TypeError ("unsupported operand type(s) for /: 'PosixPath' and '"
                           +:+ py_type v +:+ "'"))
  end.

(** [cmd.split()]: only a text has the method. *)
Definition py_split (v : pyval) : result (list string) :=
  match v with
  | VStr s => Ok (split s)
  | _ => Raise (Exception "AttributeError"
                  ("'" +:+ py_type v +:+ "' object has no attribute 'split'"))
  end.

(** The check at the head of [Path.write_text]. *)
Definition text_data (v : pyval) : result string :=
  match v with
  | VStr s => Ok s
  | _ => Raise (TypeError ("data must be str, not " +:+ py_type v))
  end.

(** [text[:n]]: the first [n] code points. *)
Fixpoint slice_to (n : nat) (s : string) : string :=
  match s with
  | EmptyString => ""
  | String c s' =>
    if is_continuation c then String c (slice_to n s')
    else match n with
         | O => ""
         | S n' => String c (slice_to n' s')
         end
  end.

(** [sorted(items)] on texts: the order is code-point order, which on UTF-8
    is byte order. *)
Definition str_le (a b : string) : Prop := String.leb a b = true.

Global Instance str_le_dec a b : Decision (str_le a b).
Proof. unfold str_le. apply _. Defined.

Definition sorted (items : list string) : list string := merge_sort str_le items.

(** ** The agent *)

Definition allowed_commands : list string :=
  ["ls"; "dir"; "find"; "grep"; "cat"; "head"; "tail"; "wc"; "echo"].

Section Agent.
Context (H : host).
(** [self.model] and [self.current_directory], fixed by [__init__]. *)
Context (model : string) (current_directory : path).

(** *** Tool implementations *)

Definition read_file (path : pyval) : M string :=
  try_except
    (rel ← lift (truediv path);
     file_path ← lift (resolve H current_directory rel);
     st ← get_state;
     content ← lift (read_text H st file_path);
     mret ("Content of " +:+ py_str path +:+ ":" +:+ nl +:+ content))
    (λ e, mret (Fore.RED +:+ "Error reading file " +:+ py_str path +:+ ": "
                +:+ exn_str e +:+ Style.RESET_ALL)).

(** [Path.write_text(content)]: the check of the argument, the opening,
    which empties the file, the encoding, the writing. *)
Definition write_text (file_path : path) (content : pyval) : M string :=
  data ← lift (text_data content);
  _ ← open_write H file_path;
  encoded ← lift (write_encode H data);
  _ ← write_close H file_path encoded;
  mret data.

Definition write_file (path content : pyval) : M string :=
  try_except
    (rel ← lift (truediv path);
     file_path ← lift (resolve H current_directory rel);
     _ ← mkdir_parents H (rev (removelast file_path));
     data ← write_text file_path content;
     mret (Fore.GREEN +:+ "✅ Successfully created file " +:+ py_str path
           +:+ ". The file now contains " +:+ str_of_nat (len data)
           +:+ " characters." +:+ Style.RESET_ALL))
    (λ e, mret (Fore.RED +:+ "Error writing to file " +:+ py_str path +:+ ": "
                +:+ exn_str e +:+ Style.RESET_ALL)).

(** The [for item in items] loop of [list_files], on the accumulators
    [dirs] and [files]. *)
Fixpoint classify (st : state) (dir_path : path) (items : list string)
    (dirs files : list string) : result (list string * list string) :=
  match items with
  | [] => Ok (dirs, files)
  | name :: rest =>
    match path_is_dir H st (dir_path ++ [name]) with
    | Raise e => Raise e
    | Ok true =>
      classify st dir_path rest
        (dirs ++ [Fore.CYAN +:+ "📁 " +:+ name +:+ "/" +:+ Style.RESET_ALL])
        files
    | Ok false =>
      classify st dir_path rest dirs
        (files ++ [Fore.YELLOW +:+ "📄 " +:+ name +:+ Style.RESET_ALL])
    end
  end.

Definition list_files (path : pyval) : M string :=
  try_except
    (rel ← lift (truediv path);
     dir_path ← lift (resolve H current_directory rel);
     st ← get_state;
     is_directory ← lift (path_is_dir H st dir_path);
     if negb is_directory
     then mret (Fore.RED +:+ "Error: " +:+ py_str path +:+ " is not a directory"
                +:+ Style.RESET_ALL)
     else
       items ← lift (iterdir H st dir_path);
       sorted_out ← lift (classify st dir_path items [] []);
       let all_items := sorted sorted_out.1 ++ sorted sorted_out.2 in
       mret ("Contents of " +:+ path_str dir_path +:+ ":" +:+ nl
             +:+ join nl all_items))
    (λ e, mret (Fore.RED +:+ "Error listing files in " +:+ py_str path +:+ ": "
                +:+ exn_str e +:+ Style.RESET_ALL)).

Definition find_files (pattern : pyval) : M string :=
  try_except
    (st ← get_state;
     files ← lift (glob_glob H st pattern);
     match files with
     | _ :: _ =>
       let file_list :=
         join nl (map (λ f, Fore.YELLOW +:+ f +:+ Style.RESET_ALL) files) in
       mret (Fore.GREEN +:+ "Found " +:+ str_of_nat (length files)
             +:+ " files matching '" +:+ py_str pattern +:+ "':"
             +:+ Style.RESET_ALL +:+ nl +:+ file_list)
     | [] =>
       mret (Fore.YELLOW +:+ "No files found matching '" +:+ py_str pattern
             +:+ "'" +:+ Style.RESET_ALL)
     end)
    (λ e, mret (Fore.RED +:+ "Error finding files with pattern '"
                +:+ py_str pattern +:+ "': " +:+ exn_str e +:+ Style.RESET_ALL)).

(** [subprocess.run(cmd, shell=True, capture_output=True, text=True)]: the
    call is logged and the shell may change the file system. *)
Definition run_shell (cmd : string) : M completed_process := λ st,
  let '(r, fs') := subprocess_run H st cmd in
  (r, put_fs fs' (push_event (EvSubprocess cmd true) st)).

Definition not_allowed (first : string) : string :=
  Fore.RED +:+ "Error: Command '" +:+ first
  +:+ "' is not allowed for security reasons" +:+ Style.RESET_ALL.

Definition run_command (cmd : pyval) : M string :=
  try_except
    (cmd_parts ← lift (py_split cmd);
     match cmd_parts with
     | [] => mret (not_allowed "")
     | first :: _ =>
       if negb (bool_decide (first ∈ allowed_commands))
       then mret (not_allowed first)
       else
         result ← run_shell (py_str cmd);
         if Z.eqb (returncode result) 0 then
           let output := stdout result in
           if bool_decide (output = "")
           then mret (Fore.GREEN +:+ "✅ Command '" +:+ py_str cmd
                      +:+ "' executed successfully with no output"
                      +:+ Style.RESET_ALL)
           else mret (Fore.GREEN +:+ "✅ Command output:" +:+ Style.RESET_ALL
                      +:+ nl +:+ output)
         else mret (Fore.RED +:+ "❌ Command failed with error:"
                    +:+ Style.RESET_ALL +:+ nl +:+ stderr result)
     end)
    (λ e, mret (Fore.RED +:+ "Error executing command '" +:+ py_str cmd
                +:+ "': " +:+ exn_str e +:+ Style.RESET_ALL)).

(** [int(num_results)]: integers and booleans convert, [None] does not,
    the conversion of any other value is the host's. *)
Definition int_of (v : pyval) : result Z :=
  match v with
  | VInt z => Ok z
  | VBool b => Ok (if b then 1 else 0)
  | VNone => Raise (TypeError
      "int() argument must be a string, a bytes-like object or a real number, not 'NoneType'")
  | _ => py_int H v
  end.

(** [requests.post(url, headers=headers, json=data)] *)
Definition http_post (url : string) (headers : list (string * string))
    (data : search_request) : M response := λ st,
  (requests_post H st url headers data,
   push_event (EvHttpPost url headers data) st).

(** One pass of the formatting loop of [web_search]. *)
Definition format_item (i : nat) (item : search_item) : string :=
  let title := default "No title" (item_title item) in
  let url := default "No link" (item_url item) in
  let text := default "" (item_text item) in
  let snippet :=
    if decide (150 < len text)%nat then slice_to 150 text +:+ "..." else text in
  str_of_nat i +:+ ". " +:+ title +:+ nl
  +:+ "   URL: " +:+ url +:+ nl
  +:+ "   Description: " +:+ snippet +:+ nl +:+ nl.

Fixpoint format_items (i : nat) (items : list search_item) : string :=
  match items with
  | [] => ""
  | item :: rest => format_item i item +:+ format_items (S i) rest
  end.

Definition web_search (query num_results : pyval) : M string :=
  try_except
    (st ← get_state;
     let api_key := environ st !! "EXA_API_KEY" in
     match api_key with
     | None | Some "" => mret "Error: Exa API key not configured."
     | Some api_key =>
       let url := "https://api.exa.ai/search" in
       let headers := [("Content-Type", "application/json"); ("x-api-key", api_key)] in
       n ← lift (int_of num_results);
       let data := {| sr_query := query; sr_num_results := n;
                      sr_use_autoprompt := true |} in
       response ← http_post url headers data;
       if negb (Z.eqb (status_code response) 200)
       then mret ("Error: Exa API returned status code "
                  +:+ pretty (status_code response))
       else
         search_results ← lift (response_json response);
         match search_results with
         | None | Some [] =>
           mret ("No results found for query: '" +:+ py_str query +:+ "'")
         | Some results =>
           mret ("Search results for '" +:+ py_str query +:+ "':" +:+ nl +:+ nl
                 +:+ format_items 1 results)
         end
     end)
    (λ e, mret ("Error executing web search: " +:+ exn_str e)).

(** *** Dispatch *)

(** Python's text for the required parameters a call leaves out. *)
Definition missing_text (names : list string) : string :=
  match names with
  | [a] => "missing 1 required positional argument: '" +:+ a +:+ "'"
  | [a; b] => "missing 2 required positional arguments: '" +:+ a
              +:+ "' and '" +:+ b +:+ "'"
  | _ => "missing required positional arguments"
  end.

(** Calling a bound method with [**params], its parameters after [self]
    being [sig] (name and default): the values in the order of [sig], or
    the [TypeError] of a [params] that is no mapping (the callable then
    shown with its module), of the first key that is [self] or no
    parameter, or of a parameter without default that is left out. *)
Definition bind_kwargs (fname : string) (sig : list (string * option pyval))
    (params : pyjson) : result (list pyval) :=
  match params with
  | JVal v =>
    Raise (TypeError (module_name H +:+ ".CodingAgent." +:+ fname
                      +:+ "() argument after ** must be a mapping, not "
                      +:+ py_type v))
  | JDict items =>
    match list_find (λ kv, kv.1 = "self" ∨ kv.1 ∉ sig.*1) items with
    | Some (_, (k, _)) =>
      if decide (k = "self")
      then Raise (TypeError ("CodingAgent." +:+ fname
                             +:+ "() got multiple values for argument 'self'"))
      else Raise (TypeError ("CodingAgent." +:+ fname
                             +:+ "() got an unexpected keyword argument '"
                             +:+ k +:+ "'" +:+ keyword_hint H k (sig.*1)))
    | None =>
      let given : gmap string pyval := list_to_map items in
      let missing :=
        omap (λ p, match given !! p.1, p.2 with
                   | None, None => Some p.1
                   | _, _ => None
                   end) sig in
      match missing with
      | [] => Ok (omap (λ p, match given !! p.1 with
                             | Some v => Some v
                             | None => p.2
                             end) sig)
      | _ => Raise (TypeError ("CodingAgent." +:+ fname +:+ "() "
                               +:+ missing_text missing))
      end
    end
  end.

Definition call1 (fname : string) (sig : list (string * option pyval))
    (f : pyval → M string) (params : pyjson) : M string :=
  args ← lift (bind_kwargs fname sig params);
  match args with
  | [a] => f a
  | _ => raise (TypeError "arity")
  end.

Definition call2 (fname : string) (sig : list (string * option pyval))
    (f : pyval → pyval → M string) (params : pyjson) : M string :=
  args ← lift (bind_kwargs fname sig params);
  match args with
  | [a; b] => f a b
  | _ => raise (TypeError "arity")
  end.

(** The dictionary [tools] of [execute_tool]. *)
Definition tools : list (string * (pyjson → M string)) :=
  [ ("read_file", call1 "read_file" [("path", None)] read_file);
    ("write_file",
     call2 "write_file" [("path", None); ("content", None)] write_file);
    ("list_files", call1 "list_files" [("path", Some (VStr "."))] list_files);
    ("find_files", call1 "find_files" [("pattern", None)] find_files);
    ("run_command", call1 "run_command" [("cmd", None)] run_command);
    ("web_search",
     call2 "web_search" [("query", None); ("num_results", Some (VInt 5))]
           web_search) ].

(** [tools[tool_name]] *)
Fixpoint lookup_tool (registry : list (string * (pyjson → M string)))
    (tool_name : string) : option (pyjson → M string) :=
  match registry with
  | [] => None
  | (k, f) :: rest =>
    if decide (k = tool_name) then Some f else lookup_tool rest tool_name
  end.

(** [execute_tool] over an arbitrary registry. *)
Definition execute_tool_in (registry : list (string * (pyjson → M string)))
    (tool_name : string) (params : pyjson) : M string :=
  match lookup_tool registry tool_name with
  | Some f =>
    try_except (f params)
      (λ e, mret (Fore.RED +:+ "Error executing " +:+ tool_name +:+ ": "
                  +:+ exn_str e +:+ Style.RESET_ALL))
  | None =>
    mret (Fore.RED +:+ "Tool '" +:+ tool_name +:+ "' not implemented"
          +:+ Style.RESET_ALL)
  end.

Definition execute_tool : string → pyjson → M string := execute_tool_in tools.

(** *** The orchestration loop *)

(** [self.chat(messages)]: the request is logged, then the provider's
    answer or failure comes back. *)
Definition chat (msgs : list message) : M completion := λ st,
  (chat_completions_create H st model msgs,
   push_event (EvChat model msgs "auto") st).

(** [completion.choices[0].message] *)
Definition first_choice (c : completion) : result chat_message :=
  match c with
  | m :: _ => Ok m
  | [] => Raise (Exception "IndexError" "list index out of range")
  end.

(** [{"role": "user", "content": user_input}] *)
Definition user_message (user_input : string) : message :=
  {| msg_role := user; msg_content := Some user_input;
     msg_tool_calls := None; msg_tool_call_id := None; msg_name := None |}.

(** [response_message.content or ""] *)
Definition or_empty (content : option string) : string :=
  match content with
  | None | Some "" => ""
  | Some c => c
  end.

(** [response_message.model_dump()] as far as the conversation uses it. *)
Definition model_dump (m : chat_message) : message :=
  {| msg_role := assistant; msg_content := cm_content m;
     msg_tool_calls := cm_tool_calls m;
     msg_tool_call_id := None; msg_name := None |}.

(** The body of [for tool_call in response_message.tool_calls]. *)
Definition handle_tool_call (tool_call : tool_call) : M unit :=
  let function_name := tc_name tool_call in
  function_args ← lift (json_loads H (tc_arguments tool_call));
  tool_result ← execute_tool function_name function_args;
  append_message {| msg_role := tool;
                    msg_tool_call_id := Some (tc_id tool_call);
                    msg_name := Some function_name;
                    msg_content := Some tool_result;
                    msg_tool_calls := None |}.

Fixpoint for_each {A} (body : A → M unit) (items : list A) : M unit :=
  match items with
  | [] => mret ()
  | x :: rest => _ ← body x; for_each body rest
  end.

(** [n] passes of [for _ in range(5)]; [final_response] is the variable of
    that name, returned when the range is used up. *)
Fixpoint rounds (n : nat) (final_response : string) : M string :=
  match n with
  | O => mret final_response
  | S n' =>
    st ← get_state;
    completion ← chat (messages st);
    response_message ← lift (first_choice completion);
    let message_content := or_empty (cm_content response_message) in
    _ ← append_message (model_dump response_message);
    match cm_tool_calls response_message with
    | Some (tc :: tcs) =>
      _ ← for_each handle_tool_call (tc :: tcs);
      rounds n' final_response
    | _ => mret message_content
    end
  end.

Definition process_user_input (user_input : string) : M string :=
  _ ← append_message (user_message user_input);
  rounds 5 "".

End Agent.

(** ** Observations on traces *)

Definition is_chat (ev : event) : bool :=
  match ev with EvChat _ _ _ => true | _ => false end.

Definition is_subprocess (ev : event) : bool :=
  match ev with EvSubprocess _ _ => true | _ => false end.

Definition is_http (ev : event) : bool :=
  match ev with EvHttpPost _ _ _ => true | _ => false end.

(** The number of round-trips to the chat provider a trace records. *)
Definition chat_calls (t : list event) : nat := length (filter is_chat t).

(** A tool-role message answering [tc] with the text [text]. *)
Definition tool_message (tc : tool_call) (text : string) : message :=
  {| msg_role := tool; msg_content := Some text; msg_tool_calls := None;
     msg_tool_call_id := Some (tc_id tc); msg_name := Some (tc_name tc) |}.

(** An assistant turn that requests no tool: [tool_calls] absent or empty. *)
Definition tool_call_free (m : message) : Prop :=
  msg_tool_calls m = None ∨ msg_tool_calls m = Some [].

(** The lines [list_files] prints. *)
Definition dir_line (name : string) : string :=
  Fore.CYAN +:+ "📁 " +:+ name +:+ "/" +:+ Style.RESET_ALL.


(** The line [find_files] prints for a match. *)
Definition match_line (f : string) : string :=
  Fore.YELLOW +:+ f +:+ Style.RESET_ALL.

(** The text [find_files] returns for a non-empty list of matches. *)
Definition found_text (pattern : string) (files : list string) : string :=
  Fore.GREEN +:+ "Found " +:+ str_of_nat (length files)
  +:+ " files matching '" +:+ pattern +:+ "':" +:+ Style.RESET_ALL +:+ nl
  +:+ join nl (map match_line files).

(** The keys of the dictionary [tools]. *)
Definition tool_names : list string :=
  ["read_file"; "write_file"; "list_files"; "find_files"; "run_command";
   "web_search"].

(** A computation is quiet when it does not touch [self.messages] and
    sends nothing to the chat provider. *)
Definition quiet {A} (m : M A) : Prop :=
  ∀ st, messages (m st).2 = messages st
        ∧ ∃ evs, trace (m st).2 = trace st ++ evs ∧ filter is_chat evs = [].

(** The text [write_file] returns when the file is written. *)
Definition written_text (path content : string) : string :=
  Fore.GREEN +:+ "✅ Successfully created file " +:+ path
  +:+ ". The file now contains " +:+ str_of_nat (len content)
  +:+ " characters." +:+ Style.RESET_ALL.



(** ** Concrete worlds, for examples *)

Definition empty_state : state :=
  {| messages := []; fs := ∅; environ := ∅; trace := [] |}.

(** A root directory with the two subdirectories [a] and [a.b]. *)
Definition dotted_state : state :=
  {| messages := []; fs := {[ ["a"] := Dir; ["a.b"] := Dir ]};
     environ := ∅; trace := [] |}.

(** A root directory where [a] is a regular file. *)
Definition blocked_state : state :=
  {| messages := []; fs := {[ ["a"] := File "x" ]}; environ := ∅; trace := [] |}.

(** A host whose shell echoes [hi], whose glob finds [b.txt] before
    [a.txt], whose chat provider always asks for the tool call [c1] while
    saying [working], and whose JSON decoder reads every text as the
    arguments of a file search. Its operating system refuses nothing, its
    locale encodes as UTF-8 does, every text but one with a surrogate, and
    the file runs as a script. *)
Definition demo_call : tool_call :=
  {| tc_id := "c1"; tc_name := "find_files"; tc_arguments := "{}" |}.

Definition demo_host : host := {|
  subprocess_run := λ st cmd,
    (Ok {| returncode := 0; stdout := "hi" +:+ nl; stderr := "" |}, fs st);
  requests_post := λ _ _ _ _,
    Raise (Exception "ConnectionError" "unreachable");
  chat_completions_create := λ _ _ _,
    Ok [ {| cm_content := Some "working"; cm_tool_calls := Some [demo_call] |} ];
  glob_glob := λ _ _, Ok ["b.txt"; "a.txt"];
  json_loads := λ _, Ok (JDict [("pattern", VStr "*.txt")]);
  py_int := λ _, Raise (Exception "ValueError" "invalid literal for int()");
  os_refuses := λ _ _, None;
  torn_write := λ _ _ _, "";
  is_dir_ignores := λ _, false;
  write_encode := λ s,
    if has_surrogate s
    then Raise (Exception "UnicodeEncodeError" "surrogates not allowed")
    else Ok s;
  fsencode_error := λ _ _,
    Some (Exception "UnicodeEncodeError" "surrogates not allowed");
  py_repr := λ s, "'" +:+ s +:+ "'";
  module_name := "__main__";
  keyword_hint := λ _ _, ""
|}.

(** The same host, the provider now sending the argument text [{], which
    the JSON decoder rejects. *)
Definition bad_call : tool_call :=
  {| tc_id := "c1"; tc_name := "find_files"; tc_arguments := "{" |}.

Definition bad_json_host : host := {|
  subprocess_run := subprocess_run demo_host;
  requests_post := requests_post demo_host;
  chat_completions_create := λ _ _ _,
    Ok [ {| cm_content := None; cm_tool_calls := Some [bad_call] |} ];
  glob_glob := glob_glob demo_host;
  json_loads := λ s,
    if decide (s = "{")
    then Raise (Exception "JSONDecodeError"
                  "Expecting property name enclosed in double quotes: line 1 column 2 (char 1)")
    else json_loads demo_host s;
  py_int := py_int demo_host;
  os_refuses := os_refuses demo_host;
  torn_write := torn_write demo_host;
  is_dir_ignores := is_dir_ignores demo_host;
  write_encode := write_encode demo_host;
  fsencode_error := fsencode_error demo_host;
  py_repr := py_repr demo_host;
  module_name := module_name demo_host;
  keyword_hint := keyword_hint demo_host
|}.

(** ** Observations on states *)

(** A computation keeps the relation [R] when the state it ends in is
    always [R]-related to the state it started in, whether it returns or
    raises. *)
Definition keeps {A} (R : relation state) (m : M A) : Prop :=
  ∀ st, R st (m st).2.

(** Nothing but the file system differs. *)
Definition same_but_fs (st st' : state) : Prop :=
  messages st' = messages st ∧ environ st' = environ st
  ∧ trace st' = trace st.

(** The calls the agent's code lets out of the process: a shell command
    whose first token is allowed, run through the shell; a search request
    to the Exa endpoint carrying the configured, non-empty key; a chat
    request for the agent's model with automatic tool choice. *)
Definition allowed_event (model : string) (env : gmap string string)
    (ev : event) : Prop :=
  match ev with
  | EvSubprocess cmd shell =>
    shell = true ∧ ∃ first, head (split cmd) = Some first
                            ∧ first ∈ allowed_commands
  | EvHttpPost url headers body =>
    url = "https://api.exa.ai/search"
    ∧ sr_use_autoprompt body = true
    ∧ ∃ key, env !! "EXA_API_KEY" = Some key ∧ key ≠ ""
             ∧ headers = [("Content-Type", "application/json");
                          ("x-api-key", key)]
  | EvChat m _ tool_choice => m = model ∧ tool_choice = "auto"
  end.

(** The environment is untouched and every call added to the trace is an
    allowed one. *)
Definition guarded (model : string) (st st' : state) : Prop :=
  environ st' = environ st
  ∧ ∃ evs, trace st' = trace st ++ evs
           ∧ Forall (allowed_event model (environ st)) evs.

(** ** The tools as advertised to the model *)

(** One entry of the [properties] of a tool's parameter schema. *)
Record property := {
  prop_name : string;
  prop_type : string;
  prop_description : string
}.

(** One entry of [get_tools_definition]: the [function] object of a tool of
    type [function], its [parameters] being an [object] schema. *)
Record tool_definition := {
  td_name : string;
  td_description : string;
  td_properties : list property;
  td_required : list string
}.

Definition get_tools_definition : list tool_definition :=
  [ {| td_name := "read_file";
       td_description := "Read the contents of a file";
       td_properties :=
         [ {| prop_name := "path"; prop_type := "string";
              prop_description := "Path to the file to read" |} ];
       td_required := ["path"] |};
    {| td_name := "write_file";
       td_description := "Write content to a file";
       td_properties :=
         [ {| prop_name := "path"; prop_type := "string";
              prop_description := "Path to the file to write" |};
           {| prop_name := "content"; prop_type := "string";
              prop_description := "Content to write to the file" |} ];
       td_required := ["path"; "content"] |};
    {| td_name := "list_files";
       td_description := "List files in a directory";
       td_properties :=
         [ {| prop_name := "path"; prop_type := "string";
              prop_description :=
                "Path to the directory (defaults to current directory)" |} ];
       td_required := [] |};
    {| td_name := "find_files";
       td_description := "Find files matching a pattern";
       td_properties :=
         [ {| prop_name := "pattern"; prop_type := "string";
              prop_description := "Glob pattern to match" |} ];
       td_required := ["pattern"] |};
    {| td_name := "run_command";
       td_description := "Run a shell command";
       td_properties :=
         [ {| prop_name := "cmd"; prop_type := "string";
              prop_description := "Command to run" |} ];
       td_required := ["cmd"] |};
    {| td_name := "web_search";
       td_description := "Search the web for information";
       td_properties :=
         [ {| prop_name := "query"; prop_type := "string";
              prop_description := "The search query" |};
           {| prop_name := "num_results"; prop_type := "integer";
              prop_description :=
                "Number of results to return (max 10, default 5)" |} ];
       td_required := ["query"] |} ].

(** The parameters of the tool methods as their [def] lines give them: name
    and default value. *)
Definition signatures : list (string * list (string * option pyval)) :=
  [ ("read_file", [("path", None)]);
    ("write_file", [("path", None); ("content", None)]);
    ("list_files", [("path", Some (VStr "."))]);
    ("find_files", [("pattern", None)]);
    ("run_command", [("cmd", None)]);
    ("web_search", [("query", None); ("num_results", Some (VInt 5))]) ].

(** A call with [**params] fits the parameters [sig]: [params] is a mapping,
    each of its keys is a parameter, each parameter without default is a
    key. *)
Definition fits (sig : list (string * option pyval)) (params : pyjson) : Prop :=
  ∃ items, params = JDict items
           ∧ (∀ k, k ∈ items.*1 → k ∈ sig.*1)
           ∧ (∀ p, (p, None) ∈ sig → p ∈ items.*1).

(** An argument object fits the schema a tool is advertised with: its keys
    are properties and include the required ones. *)
Definition fits_schema (d : tool_definition) (params : pyjson) : Prop :=
  ∃ items, params = JDict items
           ∧ (∀ k, k ∈ items.*1 → k ∈ prop_name <$> td_properties d)
           ∧ (∀ p, p ∈ td_required d → p ∈ items.*1).


(** The entries [mkdir(parents=True, exist_ok=True)] changes were missing,
    are directories afterwards, and lie on the path. *)
Definition only_new_dirs (p : path) (fs fs' : gmap path entry) : Prop :=
  ∀ k, fs' !! k = fs !! k
       ∨ (fs !! k = None ∧ fs' !! k = Some Dir ∧ k ≠ [] ∧ ∃ r, p = k ++ r).




(** A process whose environment holds a search key. *)
Definition keyed_state : state :=
  {| messages := []; fs := ∅; environ := {[ "EXA_API_KEY" := "k" ]};
     trace := [] |}.

(** The conversations the chat provider was sent, oldest first. *)
Definition requests (evs : list event) : list (list message) :=
  omap (λ ev, match ev with EvChat _ msgs _ => Some msgs | _ => None end) evs.

(** The conversation as it stood before each assistant message of [added],
    [seen] being what came before [added]. *)
Fixpoint sent_before (seen added : list message) : list (list message) :=
  match added with
  | [] => []
  | m :: rest =>
    (if decide (msg_role m = assistant) then [seen] else [])
    ++ sent_before (seen ++ [m]) rest
  end.



(** What ends a turn with the exception [e], the turn leaving the state
    [st']. Either the last thing the turn did was a request to the chat
    provider, sent in the state [s] with the conversation of [s], and the
    provider failed with [e] or replied without a choice. Or the
    conversation ends with an assistant message and the results of the
    first of the tool calls it asks for, and the argument text of the next
    call did not decode. *)
Definition turn_failure (H : host) (model : string) (e : exn)
    (st' : state) : Prop :=
  (∃ s, st' = push_event (EvChat model (messages s) "auto") s
        ∧ (chat_completions_create H s model (messages s) = Raise e
           ∨ (chat_completions_create H s model (messages s) = Ok []
              ∧ e = Exception "IndexError" "list index out of range")))
  ∨ (∃ before rm answered tc rest texts,
       messages st'
       = before ++ model_dump rm :: zip_with tool_message answered texts
       ∧ length texts = length answered
       ∧ cm_tool_calls rm = Some (answered ++ tc :: rest)
       ∧ json_loads H (tc_arguments tc) = Raise e).


(** ** The restricted shell *)

Section RunCommand.
Context (H : host).

Lemma run_command_split (cmd : string) (st : state) :
  run_command H (VStr cmd) st =
  match split cmd with
  | [] => (Ok (not_allowed ""), st)
  | first :: _ =>
    if bool_decide (first ∈ allowed_commands)
    then try_except
           (result ← run_shell H cmd;
            if Z.eqb (returncode result) 0 then
              if bool_decide (stdout result = "")
              then mret (Fore.GREEN +:+ "✅ Command '" +:+ cmd
                         +:+ "' executed successfully with no output"
                         +:+ Style.RESET_ALL)
              else mret (Fore.GREEN +:+ "✅ Command output:"
                         +:+ Style.RESET_ALL +:+ nl +:+ stdout result)
            else mret (Fore.RED +:+ "❌ Command failed with error:"
                       +:+ Style.RESET_ALL +:+ nl +:+ stderr result))
           (λ e, mret (Fore.RED +:+ "Error executing command '" +:+ cmd
                       +:+ "': " +:+ exn_str e +:+ Style.RESET_ALL)) st
    else (Ok (not_allowed first), st)
  end.
Proof.
  unfold run_command, try_except, mbind, M_bind, lift, py_split; simpl.
  destruct (split cmd) as [|first rest]; [done|].
  destruct (bool_decide (first ∈ allowed_commands)); done.
Qed.

(** C1. A command whose first whitespace-delimited token is not one of
    ls, dir, find, grep, cat, head, tail, wc, echo is answered with the
    denial message and leaves the state, so the trace of calls to the
    shell, as it was; [rm -rf /] is such a command. *)
Theorem run_command_rejects_unlisted (cmd : string) (st : state) :
  (∀ first, head (split cmd) = Some first → first ∉ allowed_commands) →
  run_command H (VStr cmd) st
    = (Ok (not_allowed (default "" (head (split cmd)))), st)
  ∧ filter is_subprocess (trace (run_command H (VStr cmd) st).2)
    = filter is_subprocess (trace st)
  ∧ run_command H (VStr "rm -rf /") st = (Ok (not_allowed "rm"), st).
Proof.
  intros Hno.
  assert (run_command H (VStr cmd) st
          = (Ok (not_allowed (default "" (head (split cmd)))), st)) as Heq.
  { rewrite run_command_split.
    destruct (split cmd) as [|first rest] eqn:Hs; [done|]. simpl.
    rewrite bool_decide_eq_false_2; [done|]. by apply Hno. }
  split; [done|]. split; [by rewrite Heq|].
  rewrite run_command_split. reflexivity.
Qed.

(** C10. Only the first token is checked: when it is in the allowed set
    the shell receives the whole command line, unchanged, in one call, and
    the tool returns a text; the empty command line is denied and nothing
    is run. *)
Theorem run_command_checks_first_token_only (cmd first : string)
    (rest : list string) (st : state) :
  split cmd = first :: rest →
  first ∈ allowed_commands →
  (∃ text,
     run_command H (VStr cmd) st
     = (Ok text, put_fs (subprocess_run H st cmd).2
                        (push_event (EvSubprocess cmd true) st)))
  ∧ run_command H (VStr "") st = (Ok (not_allowed ""), st).
Proof.
  intros Hs Hin. split; [|by rewrite run_command_split].
  rewrite run_command_split, Hs, bool_decide_eq_true_2 by done.
  unfold try_except, mbind, M_bind, run_shell, mret, M_ret.
  destruct (subprocess_run H st cmd) as [[r|e] fs']; simpl.
  - destruct (returncode r =? 0); [destruct (bool_decide _)|]; eauto.
  - eauto.
Qed.
End RunCommand.

Lemma run_command_rejects_unlisted_witness :
  run_command demo_host (VStr "rm -rf /") empty_state
  = (Ok (not_allowed "rm"), empty_state).
Proof.
  destruct (run_command_rejects_unlisted demo_host "rm -rf /" empty_state)
    as (Heq & _ & _); [|exact Heq].
  intros first [= <-]. vm_compute. intros Hin.
  repeat (apply elem_of_cons in Hin as [Hin|Hin]; [discriminate Hin|]).
  by apply elem_of_nil in Hin.
Defined.

Lemma run_command_checks_first_token_only_witness :
  ∃ text,
    run_command demo_host (VStr "echo hi; rm -rf /") empty_state
    = (Ok text, {| messages := []; fs := ∅; environ := ∅;
                   trace := [EvSubprocess "echo hi; rm -rf /" true] |}).
Proof.
  destruct (run_command_checks_first_token_only demo_host
              "echo hi; rm -rf /" "echo" ["hi;"; "rm"; "-rf"; "/"] empty_state)
    as [Hex _]; [reflexivity| |exact Hex].
  unfold allowed_commands. repeat constructor.
Defined.

(** ** Web search and file search *)

(** C9. With no [EXA_API_KEY] in the environment (or an empty one) every
    search is answered by the text saying the key is not configured; the
    state is as before, so no HTTP request left the process. *)
Theorem web_search_without_key (H : host) (query num_results : pyval)
    (st : state) :
  environ st !! "EXA_API_KEY" = None ∨ environ st !! "EXA_API_KEY" = Some "" →
  web_search H query num_results st
    = (Ok "Error: Exa API key not configured.", st)
  ∧ filter is_http (trace (web_search H query num_results st).2)
    = filter is_http (trace st).
Proof.
  intros Hkey.
  assert (web_search H query num_results st
          = (Ok "Error: Exa API key not configured.", st)) as Heq.
  { unfold web_search, try_except, mbind, M_bind, get_state.
    destruct Hkey as [-> | ->]; reflexivity. }
  by rewrite Heq.
Qed.

Lemma web_search_without_key_witness :
  web_search demo_host (VStr "rocq") (VInt 5) empty_state
  = (Ok "Error: Exa API key not configured.", empty_state).
Proof.
  apply (web_search_without_key demo_host (VStr "rocq") (VInt 5) empty_state).
  left. reflexivity.
Defined.

(** C8, as the code has it. The matches are listed with their count in the
    order [glob.glob] yields them, no sorting applied; no match gives the
    explicit message; a failing glob gives an error text. The state is
    unchanged in every case. *)
Theorem find_files_reports_glob_order (H : host) (pattern : string)
    (st : state) :
  find_files H (VStr pattern) st =
  match glob_glob H st (VStr pattern) with
  | Ok [] =>
    (Ok (Fore.YELLOW +:+ "No files found matching '" +:+ pattern +:+ "'"
         +:+ Style.RESET_ALL), st)
  | Ok files => (Ok (found_text pattern files), st)
  | Raise e =>
    (Ok (Fore.RED +:+ "Error finding files with pattern '" +:+ pattern
         +:+ "': " +:+ exn_str e +:+ Style.RESET_ALL), st)
  end.
Proof.
  unfold find_files, try_except, mbind, M_bind, get_state, lift.
  destruct (glob_glob H st (VStr pattern)) as [[|f files]|e]; reflexivity.
Qed.

(** C8, the claim as stated fails: when the glob yields [b.txt] before
    [a.txt], so does [find_files], and that list is not sorted. *)
Lemma find_files_not_sorted :
  find_files demo_host (VStr "*.txt") empty_state
  = (Ok (Fore.GREEN +:+ "Found 2 files matching '*.txt':" +:+ Style.RESET_ALL
         +:+ nl +:+ match_line "b.txt" +:+ nl +:+ match_line "a.txt"),
     empty_state)
  ∧ ¬ Sorted str_le ["b.txt"; "a.txt"].
Proof.
  split; [reflexivity|].
  intros Hs. inversion Hs as [|? ? _ Hhd]; subst.
  inversion Hhd as [|? ? Hle]; subst. vm_compute in Hle. discriminate.
Qed.

(** ** Dispatch *)

Lemma lookup_tool_None (registry : list (string * (pyjson → M string)))
    (tool_name : string) :
  tool_name ∉ registry.*1 → lookup_tool registry tool_name = None.
Proof.
  induction registry as [|[k f] registry IH]; simpl; [done|].
  intros Hnot. apply not_elem_of_cons in Hnot as [Hne Hnot].
  destruct (decide (k = tool_name)); [congruence|auto].
Qed.

Lemma execute_tool_in_returns (registry : list (string * (pyjson → M string)))
    (tool_name : string) (params : pyjson) (st : state) :
  ∃ text st', execute_tool_in registry tool_name params st = (Ok text, st').
Proof.
  unfold execute_tool_in, try_except.
  destruct (lookup_tool registry tool_name) as [f|]; [|by eauto].
  destruct (f params st) as [[text|e] st']; by eauto.
Qed.

(** C3. Dispatch returns a text and never raises, whatever the registry
    holds: a name that is not registered gives the "not implemented" text
    and leaves the state alone; an executor that raises has its exception
    turned into the text naming the tool and carrying [str(e)]. This holds
    in particular for the six tools of the agent. *)
Theorem execute_tool_never_raises (H : host) (current_directory : path)
    (registry : list (string * (pyjson → M string)))
    (tool_name : string) (params : pyjson) (st : state) :
  (∃ text st',
     execute_tool_in registry tool_name params st = (Ok text, st'))
  ∧ (lookup_tool registry tool_name = None →
     execute_tool_in registry tool_name params st
     = (Ok (Fore.RED +:+ "Tool '" +:+ tool_name +:+ "' not implemented"
            +:+ Style.RESET_ALL), st))
  ∧ (∀ f e st',
       lookup_tool registry tool_name = Some f →
       f params st = (Raise e, st') →
       execute_tool_in registry tool_name params st
       = (Ok (Fore.RED +:+ "Error executing " +:+ tool_name +:+ ": "
              +:+ exn_str e +:+ Style.RESET_ALL), st'))
  ∧ (∀ f text st',
       lookup_tool registry tool_name = Some f →
       f params st = (Ok text, st') →
       execute_tool_in registry tool_name params st = (Ok text, st'))
  ∧ (∃ text st',
       execute_tool H current_directory tool_name params st = (Ok text, st'))
  ∧ (tool_name ∉ tool_names →
     execute_tool H current_directory tool_name params st
     = (Ok (Fore.RED +:+ "Tool '" +:+ tool_name +:+ "' not implemented"
            +:+ Style.RESET_ALL), st)).
Proof.
  split; [apply execute_tool_in_returns|].
  split. { intros Hnone. unfold execute_tool_in. by rewrite Hnone. }
  split. { intros f e st' Hf Hr. unfold execute_tool_in, try_except.
           by rewrite Hf, Hr. }
  split. { intros f text st' Hf Hr. unfold execute_tool_in, try_except.
           by rewrite Hf, Hr. }
  split; [apply execute_tool_in_returns|].
  intros Hnot. unfold execute_tool, execute_tool_in.
  by rewrite lookup_tool_None.
Qed.

Lemma execute_tool_never_raises_witness :
  execute_tool demo_host [] "delete_file" (JDict []) empty_state
  = (Ok (Fore.RED +:+ "Tool 'delete_file' not implemented" +:+ Style.RESET_ALL),
     empty_state)
  ∧ execute_tool demo_host [] "read_file" (JDict []) empty_state
  = (Ok (Fore.RED +:+ "Error executing read_file: "
         +:+ "CodingAgent.read_file() missing 1 required positional argument: 'path'"
         +:+ Style.RESET_ALL), empty_state).
Proof.
  destruct (execute_tool_never_raises demo_host [] (tools demo_host [])
              "delete_file" (JDict []) empty_state)
    as (_ & _ & _ & _ & _ & Hunknown).
  destruct (execute_tool_never_raises demo_host [] (tools demo_host [])
              "read_file" (JDict []) empty_state)
    as (_ & _ & Hraise & _).
  split.
  - apply Hunknown. vm_compute. intros Hin.
    repeat (apply elem_of_cons in Hin as [Hin|Hin]; [discriminate Hin|]).
    by apply elem_of_nil in Hin.
  - exact (Hraise (call1 demo_host "read_file" [("path", None)]
                     (read_file demo_host []))
             (TypeError "CodingAgent.read_file() missing 1 required positional argument: 'path'")
             empty_state eq_refl eq_refl).
Defined.

(** ** Tools leave the conversation alone *)

Lemma quiet_here {A} (r : result A) (st : state) :
  messages st = messages st
  ∧ ∃ evs, trace st = trace st ++ evs ∧ filter is_chat evs = [].
Proof. split; [done|]. exists []. by rewrite app_nil_r. Qed.

Lemma quiet_mret {A} (a : A) : quiet (mret a).
Proof. intros st. by apply (quiet_here (Ok a)). Qed.

Lemma quiet_raise {A} (e : exn) : quiet (@raise A e).
Proof. intros st. by apply (quiet_here (@Raise A e)). Qed.

Lemma quiet_lift {A} (r : result A) : quiet (lift r).
Proof. intros st. by apply (quiet_here r). Qed.

Lemma quiet_get_state : quiet get_state.
Proof. intros st. by apply (quiet_here (Ok st)). Qed.

Lemma quiet_set_fs (fs' : gmap path entry) : quiet (set_fs fs').
Proof. intros st. simpl. split; [done|]. exists []. by rewrite app_nil_r. Qed.

Lemma quiet_bind {A B} (m : M A) (f : A → M B) :
  quiet m → (∀ a, quiet (f a)) → quiet (m ≫= f).
Proof.
  intros Hm Hf st. unfold mbind, M_bind.
  destruct (Hm st) as (Hmsg & evs & Htr & Hev).
  destruct (m st) as [[a|e] st1]; simpl in *.
  - destruct (Hf a st1) as (Hmsg' & evs' & Htr' & Hev').
    split; [congruence|]. exists (evs ++ evs').
    rewrite Htr', Htr, filter_app, Hev, Hev'. by rewrite app_assoc.
  - eauto.
Qed.

Lemma quiet_try {A} (body : M A) (handler : exn → M A) :
  quiet body → (∀ e, quiet (handler e)) → quiet (try_except body handler).
Proof.
  intros Hm Hf st. unfold try_except.
  destruct (Hm st) as (Hmsg & evs & Htr & Hev).
  destruct (body st) as [[a|e] st1]; simpl in *.
  - eauto.
  - destruct (Hf e st1) as (Hmsg' & evs' & Htr' & Hev').
    split; [congruence|]. exists (evs ++ evs').
    rewrite Htr', Htr, filter_app, Hev, Hev'. by rewrite app_assoc.
Qed.

Lemma quiet_run_shell (H : host) (cmd : string) : quiet (run_shell H cmd).
Proof.
  intros st. unfold run_shell.
  destruct (subprocess_run H st cmd) as [r fs']. simpl.
  split; [done|]. by exists [EvSubprocess cmd true].
Qed.

Lemma quiet_http_post (H : host) (url : string)
    (headers : list (string * string)) (data : search_request) :
  quiet (http_post H url headers data).
Proof.
  intros st. simpl. split; [done|]. by exists [EvHttpPost url headers data].
Qed.

(** Goes through a method body: binds, handlers and case distinctions. *)
Ltac quiet_step :=
  first
    [ apply quiet_mret | apply quiet_raise | apply quiet_lift
    | apply quiet_get_state | apply quiet_set_fs
    | apply quiet_run_shell | apply quiet_http_post
    | apply quiet_bind; [|intros ?]
    | apply quiet_try; [|intros ?]
    | match goal with
      | |- quiet (match ?x with _ => _ end) => destruct x
      | |- quiet (let '(_, _) := ?x in _) => destruct x
      end ].

Ltac quiet_body := repeat quiet_step.

Section Quiet.
Context (H : host) (current_directory : path).

Lemma quiet_read_file (p : pyval) : quiet (read_file H current_directory p).
Proof. unfold read_file. quiet_body. Qed.

Lemma quiet_mkdir_parents (rp : list string) : quiet (mkdir_parents H rp).
Proof.
  induction rp as [|n rp IH]; cbn [mkdir_parents];
    repeat first [apply IH | quiet_step].
Qed.

Lemma quiet_write_file (p c : pyval) :
  quiet (write_file H current_directory p c).
Proof.
  unfold write_file, write_text.
  repeat first [apply quiet_mkdir_parents | quiet_step].
Qed.

Lemma quiet_list_files (p : pyval) : quiet (list_files H current_directory p).
Proof. unfold list_files. quiet_body. Qed.

Lemma quiet_find_files (p : pyval) : quiet (find_files H p).
Proof. unfold find_files. quiet_body. Qed.

Lemma quiet_run_command (c : pyval) : quiet (run_command H c).
Proof. unfold run_command. quiet_body. Qed.

Lemma quiet_web_search (q n : pyval) : quiet (web_search H q n).
Proof. unfold web_search. quiet_body. Qed.

Lemma quiet_call1 (fname : string) (sig : list (string * option pyval))
    (f : pyval → M string) (params : pyjson) :
  (∀ a, quiet (f a)) → quiet (call1 H fname sig f params).
Proof. intros Hf. unfold call1. quiet_body. apply Hf. Qed.

Lemma quiet_call2 (fname : string) (sig : list (string * option pyval))
    (f : pyval → pyval → M string) (params : pyjson) :
  (∀ a b, quiet (f a b)) → quiet (call2 H fname sig f params).
Proof. intros Hf. unfold call2. quiet_body. apply Hf. Qed.

Lemma quiet_tools (tool_name : string) (f : pyjson → M string)
    (params : pyjson) :
  lookup_tool (tools H current_directory) tool_name = Some f →
  quiet (f params).
Proof.
  unfold tools. simpl. intros Hf.
  repeat (case_decide;
          [injection Hf as <-;
           first [ apply quiet_call1; intros ? | apply quiet_call2; intros ? ? ];
           auto using quiet_read_file, quiet_write_file, quiet_list_files,
             quiet_find_files, quiet_run_command, quiet_web_search
          |]).
  discriminate.
Qed.

(** [execute_tool] returns a text, keeps [self.messages] and sends nothing
    to the chat provider. *)
Lemma execute_tool_quiet (tool_name : string) (params : pyjson) (st : state) :
  ∃ text st' evs,
    execute_tool H current_directory tool_name params st = (Ok text, st')
    ∧ messages st' = messages st
    ∧ trace st' = trace st ++ evs
    ∧ filter is_chat evs = [].
Proof.
  assert (quiet (execute_tool H current_directory tool_name params)) as Hq.
  { unfold execute_tool, execute_tool_in.
    destruct (lookup_tool _ tool_name) as [f|] eqn:Hf; [|apply quiet_mret].
    apply quiet_try; [by eapply quiet_tools|intros e; apply quiet_mret]. }
  destruct (execute_tool_in_returns (tools H current_directory)
              tool_name params st) as (text & st' & Heq).
  change (execute_tool H current_directory tool_name params st
          = (Ok text, st')) in Heq.
  destruct (Hq st) as (Hmsg & evs & Htr & Hev). rewrite Heq in Hmsg, Htr.
  by exists text, st', evs.
Qed.
End Quiet.

(** ** The orchestration loop *)

Section Loop.
Context (H : host) (model : string) (current_directory : path).

Local Abbreviation handle := (handle_tool_call H current_directory).
Local Abbreviation loop := (rounds H model current_directory).
Local Abbreviation process := (process_user_input H model current_directory).

(** One tool call: a decoding failure leaves everything as it was, a decoded
    call is answered by exactly one tool message carrying its identifier. *)
Lemma handle_tool_call_spec (tc : tool_call) (st : state) :
  match json_loads H (tc_arguments tc) with
  | Raise e => handle tc st = (Raise e, st)
  | Ok _ =>
    ∃ text st1 evs,
      handle tc st = (Ok (), push_message (tool_message tc text) st1)
      ∧ messages st1 = messages st
      ∧ trace st1 = trace st ++ evs
      ∧ filter is_chat evs = []
  end.
Proof.
  unfold handle_tool_call, mbind, M_bind, lift.
  destruct (json_loads H (tc_arguments tc)) as [j|e]; [|done].
  destruct (execute_tool_quiet H current_directory (tc_name tc) j st)
    as (text & st1 & evs & -> & Hmsg & Htr & Hev).
  by exists text, st1, evs.
Qed.

(** The loop over the tool calls of one turn. The messages it appends answer
    a prefix of the calls, in order; all of them when it does not raise. It
    sends nothing to the chat provider. *)
Lemma for_each_tool_calls (tcs : list tool_call) (st : state) :
  ∃ r st' texts evs,
    for_each handle tcs st = (r, st')
    ∧ messages st' = messages st ++ zip_with tool_message tcs texts
    ∧ (length texts ≤ length tcs)%nat
    ∧ trace st' = trace st ++ evs
    ∧ filter is_chat evs = []
    ∧ (∀ u, r = Ok u → length texts = length tcs)
    ∧ ((∀ tc, tc ∈ tcs → ∃ j, json_loads H (tc_arguments tc) = Ok j) →
       r = Ok ()).
Proof.
  revert st. induction tcs as [|tc tcs IH]; intros st.
  - exists (Ok ()), st, [], []. simpl. by rewrite !app_nil_r.
  - simpl. unfold mbind, M_bind.
    pose proof (handle_tool_call_spec tc st) as Hh.
    destruct (json_loads H (tc_arguments tc)) as [j|e] eqn:Hj.
    + destruct Hh as (text & st1 & evs & -> & Hmsg & Htr & Hev).
      destruct (IH (push_message (tool_message tc text) st1))
        as (r & st' & texts & evs' & -> & Hmsg' & Hlen & Htr' & Hev' & Hok & Hall).
      exists r, st', (text :: texts), (evs ++ evs'). simpl in *.
      split; [done|]. split; [by rewrite Hmsg', Hmsg, <-app_assoc|].
      split; [lia|]. split; [by rewrite Htr', Htr, app_assoc|].
      split; [by rewrite filter_app, Hev, Hev'|].
      split; [intros u Hu; f_equal; by eapply Hok|].
      intros Hdec. apply Hall. intros tc' Hin. apply Hdec. by right.
    + rewrite Hh. exists (Raise e), st, [], []. simpl. rewrite !app_nil_r.
      repeat split; try done; try lia.
      intros Hdec. destruct (Hdec tc) as [j Hj']; [by left|congruence].
Qed.

(** One pass of the loop, case by case. *)
Lemma rounds_S (n : nat) (final_response : string) (st : state) :
  loop (S n) final_response st =
  let st1 := push_event (EvChat model (messages st) "auto") st in
  match chat_completions_create H st model (messages st) with
  | Raise e => (Raise e, st1)
  | Ok [] => (Raise (Exception "IndexError" "list index out of range"), st1)
  | Ok (response_message :: _) =>
    let st2 := push_message (model_dump response_message) st1 in
    match cm_tool_calls response_message with
    | Some (tc :: tcs) =>
      match for_each handle (tc :: tcs) st2 with
      | (Ok _, st3) => loop n final_response st3
      | (Raise e, st3) => (Raise e, st3)
      end
    | _ => (Ok (or_empty (cm_content response_message)), st2)
    end
  end.
Proof.
  cbn [rounds]. unfold mbind, M_bind, get_state, chat, lift.
  destruct (chat_completions_create H st model (messages st))
    as [[|rm rest]|e]; simpl; [done| |done].
  destruct (cm_tool_calls rm) as [[|tc tcs]|]; done.
Qed.

Lemma chat_calls_app (t evs : list event) :
  chat_calls (t ++ evs) = (chat_calls t + length (filter is_chat evs))%nat.
Proof. unfold chat_calls. by rewrite filter_app, length_app. Qed.

(** What [n] passes of the loop do to the trace and to the conversation,
    and what they return. *)
Lemma rounds_inv (n : nat) (final_response : string) (st : state) :
  ∃ evs new,
    trace (loop n final_response st).2 = trace st ++ evs
    ∧ (length (filter is_chat evs) ≤ n)%nat
    ∧ messages (loop n final_response st).2 = messages st ++ new
    ∧ (∀ x, (loop n final_response st).1 = Ok x →
         (x = final_response ∧ length (filter is_chat evs) = n)
         ∨ ∃ m, m ∈ new ∧ msg_role m = assistant ∧ tool_call_free m)
    ∧ ((∀ s msgs, ∃ rm rest,
          chat_completions_create H s model msgs = Ok (rm :: rest)) →
       (∀ a, ∃ j, json_loads H a = Ok j) →
       ∃ x, (loop n final_response st).1 = Ok x).
Proof.
  revert st. induction n as [|n IH]; intros st.
  { exists [], []. simpl. rewrite !app_nil_r.
    split; [done|]. split; [done|]. split; [done|]. split; [|by eauto].
    intros x [= <-]. by left. }
  rewrite rounds_S. cbv zeta.
  set (ev := EvChat model (messages st) "auto").
  destruct (chat_completions_create H st model (messages st))
    as [[|rm rest]|e] eqn:Hchat.
  - exists [ev], []. simpl. rewrite app_nil_r.
    repeat split; try done; try lia.
    intros Hhost _. destruct (Hhost st (messages st)) as (? & ? & ?). congruence.
  - assert (tool_call_free (model_dump rm) →
            ∃ evs new,
              trace st ++ [ev] = trace st ++ evs
              ∧ (length (filter is_chat evs) ≤ S n)%nat
              ∧ messages st ++ [model_dump rm] = messages st ++ new
              ∧ (∀ x, Ok (or_empty (cm_content rm)) = Ok x →
                   (x = final_response ∧ length (filter is_chat evs) = S n)
                   ∨ ∃ m, m ∈ new ∧ msg_role m = assistant ∧ tool_call_free m)
              ∧ ((∀ s msgs, ∃ rm rest,
                    chat_completions_create H s model msgs = Ok (rm :: rest)) →
                 (∀ a, ∃ j, json_loads H a = Ok j) →
                 ∃ x, Ok (or_empty (cm_content rm)) = Ok x)) as Hfinal.
    { intros Hfree. exists [ev], [model_dump rm].
      split; [done|]. split; [simpl; lia|]. split; [done|]. split.
      - intros x _. right. exists (model_dump rm). split; [by left|done].
      - intros _ _. by eauto. }
    destruct (cm_tool_calls rm) as [[|tc tcs]|] eqn:Htc;
      [apply Hfinal; right; simpl; by rewrite Htc
      | clear Hfinal
      | apply Hfinal; left; simpl; by rewrite Htc].
    destruct (for_each_tool_calls (tc :: tcs)
                (push_message (model_dump rm) (push_event ev st)))
      as (r & st3 & texts & evs1 & Hfe & Hmsg & Hlen & Htr & Hev & Hok & Hall).
    rewrite Hfe. destruct r as [u|e].
    + destruct (IH st3) as (evs2 & new2 & Htr2 & Hn2 & Hmsg2 & Hret & Hhost).
      exists (ev :: evs1 ++ evs2),
             (model_dump rm :: zip_with tool_message (tc :: tcs) texts ++ new2).
      split. { rewrite Htr2, Htr. simpl. by rewrite <-!app_assoc. }
      assert (length (filter is_chat (ev :: evs1 ++ evs2))
              = S (length (filter is_chat evs2))) as Hcount.
      { change (ev :: evs1 ++ evs2) with ([ev] ++ evs1 ++ evs2).
        by rewrite !filter_app, Hev. }
      split; [lia|].
      split. { rewrite Hmsg2, Hmsg. simpl. by rewrite <-!app_assoc. }
      split.
      * intros x Hx. destruct (Hret x Hx) as [[-> Hn]|(m & Hin & Hm)].
        -- left. split; [done|lia].
        -- right. exists m. split; [|done].
           right. apply elem_of_app. by right.
      * done.
    + cbn [fst snd].
      exists (ev :: evs1), (model_dump rm :: zip_with tool_message (tc :: tcs) texts).
      split. { rewrite Htr. simpl. by rewrite <-!app_assoc. }
      assert (length (filter is_chat (ev :: evs1)) = 1%nat) as Hcount.
      { change (ev :: evs1) with ([ev] ++ evs1). by rewrite filter_app, Hev. }
      split; [lia|].
      split. { rewrite Hmsg. simpl. by rewrite <-!app_assoc. }
      split; [done|].
      intros _ Hjson. by specialize (Hall (λ c _, Hjson (tc_arguments c))).
  - exists [ev], []. simpl. rewrite app_nil_r.
    repeat split; try done; try lia.
    intros Hhost _. destruct (Hhost st (messages st)) as (? & ? & ?). congruence.
Qed.

Lemma process_user_input_unfold (user_input : string) (st : state) :
  process user_input st
  = loop 5 "" (push_message (user_message user_input) st).
Proof. reflexivity. Qed.

(** A pass that is made starts with the chat request, sent with the
    conversation as it stands. *)
Lemma rounds_first_event (n : nat) (final_response : string) (st : state) :
  ∃ evs, trace (loop (S n) final_response st).2
         = trace st ++ EvChat model (messages st) "auto" :: evs.
Proof.
  rewrite rounds_S. cbv zeta.
  destruct (chat_completions_create H st model (messages st))
    as [[|rm rest]|e]; [by exists []| |by exists []].
  destruct (cm_tool_calls rm) as [[|tc tcs]|]; [by exists []| |by exists []].
  destruct (for_each_tool_calls (tc :: tcs)
              (push_message (model_dump rm)
                 (push_event (EvChat model (messages st) "auto") st)))
    as (r & st3 & texts & evs1 & -> & _ & _ & Htr & _).
  destruct r as [u|e].
  - destruct (rounds_inv n final_response st3) as (evs2 & _ & -> & _).
    exists (evs1 ++ evs2). rewrite Htr. simpl. by rewrite <-!app_assoc.
  - exists evs1. cbn [fst snd]. rewrite Htr. simpl. by rewrite <-!app_assoc.
Qed.

(** C5. Whatever the user types and whatever the provider answers, one
    call of [process_user_input] adds at most 5 chat requests to the trace,
    however many tool calls the turns carry; being a total function it
    always comes back, with a text or with the exception of a failed
    collaborator. *)
Theorem process_user_input_round_trips (user_input : string) (st : state) :
  ∃ evs,
    trace (process user_input st).2 = trace st ++ evs
    ∧ (length (filter is_chat evs) ≤ 5)%nat
    ∧ (chat_calls (trace (process user_input st).2)
       ≤ chat_calls (trace st) + 5)%nat.
Proof.
  rewrite process_user_input_unfold.
  destruct (rounds_inv 5 "" (push_message (user_message user_input) st))
    as (evs & _ & Htr & Hn & _).
  exists evs. rewrite Htr. simpl. rewrite chat_calls_app.
  split; [done|]. split; [done|lia].
Qed.




(** X15. In a pass whose turn carries the tool calls [tc :: tcs], all
    with argument texts that decode, the assistant message
    is followed by exactly as many tool messages as there are calls; the
    i-th carries the identifier and the name of the i-th call and a text as
    content. Nothing is sent to the chat provider meanwhile, and the next
    pass sends its request with these messages in the conversation. *)
Theorem tool_results_answer_requests (n : nat) (final_response : string)
    (st : state) (rm : chat_message) (rest : list chat_message)
    (tc : tool_call) (tcs : list tool_call) :
  chat_completions_create H st model (messages st) = Ok (rm :: rest) →
  cm_tool_calls rm = Some (tc :: tcs) →
  (∀ c, c ∈ tc :: tcs → ∃ j, json_loads H (tc_arguments c) = Ok j) →
  ∃ tool_msgs st' evs,
    loop (S n) final_response st = loop n final_response st'
    ∧ messages st' = messages st ++ model_dump rm :: tool_msgs
    ∧ length tool_msgs = length (tc :: tcs)
    ∧ msg_tool_call_id <$> tool_msgs = (λ c, Some (tc_id c)) <$> (tc :: tcs)
    ∧ msg_name <$> tool_msgs = (λ c, Some (tc_name c)) <$> (tc :: tcs)
    ∧ Forall (λ m, msg_role m = tool ∧ ∃ text, msg_content m = Some text)
             tool_msgs
    ∧ trace st' = trace st ++ EvChat model (messages st) "auto" :: evs
    ∧ filter is_chat evs = []
    ∧ (∀ n', n = S n' →
         ∃ evs', trace (loop n final_response st').2
                 = trace st' ++ EvChat model (messages st') "auto" :: evs').
Proof.
  intros Hchat Htc Hjson. rewrite rounds_S, Hchat, Htc. cbv zeta.
  destruct (for_each_tool_calls (tc :: tcs)
              (push_message (model_dump rm)
                 (push_event (EvChat model (messages st) "auto") st)))
    as (r & st3 & texts & evs1 & -> & Hmsg & _ & Htr & Hev & Hok & Hall).
  rewrite (Hall Hjson) in *. specialize (Hok () eq_refl).
  exists (zip_with tool_message (tc :: tcs) texts), st3, evs1.
  split; [done|].
  split. { rewrite Hmsg. simpl. by rewrite <-app_assoc. }
  assert (∀ cs ts, length ts = length cs →
            length (zip_with tool_message cs ts) = length cs
            ∧ msg_tool_call_id <$> zip_with tool_message cs ts
              = (λ c, Some (tc_id c)) <$> cs
            ∧ msg_name <$> zip_with tool_message cs ts
              = (λ c, Some (tc_name c)) <$> cs
            ∧ Forall (λ m, msg_role m = tool ∧ ∃ text, msg_content m = Some text)
                     (zip_with tool_message cs ts)) as Hzip.
  { clear. induction cs as [|c cs IH]; intros [|t ts] Hlen; try done.
    destruct (IH ts) as (Hl & Hid & Hname & Hall); [by injection Hlen|].
    simpl. rewrite Hl. split; [done|]. split; [by f_equal|].
    split; [by f_equal|]. constructor; [|done]. simpl. by eauto. }
  destruct (Hzip (tc :: tcs) texts Hok) as (Hl & Hid & Hname & Hforall).
  split; [done|]. split; [done|]. split; [done|]. split; [done|].
  split. { rewrite Htr. simpl. by rewrite <-app_assoc. }
  split; [done|].
  intros n' ->. apply rounds_first_event.
Qed.

End Loop.

Lemma tool_results_answer_requests_witness :
  ∃ tool_msgs st' evs,
    rounds demo_host "m" [] 5 "" empty_state
    = rounds demo_host "m" [] 4 "" st'
    ∧ messages st'
      = model_dump {| cm_content := Some "working";
                      cm_tool_calls := Some [demo_call] |} :: tool_msgs
    ∧ length tool_msgs = 1%nat
    ∧ msg_tool_call_id <$> tool_msgs = [Some "c1"]
    ∧ trace st' = EvChat "m" [] "auto" :: evs
    ∧ filter is_chat evs = [].
Proof.
  destruct (tool_results_answer_requests demo_host "m" [] 4 "" empty_state
              {| cm_content := Some "working"; cm_tool_calls := Some [demo_call] |}
              [] demo_call [])
    as (tool_msgs & st' & evs & Hloop & Hmsg & Hlen & Hid & _ & _ & Htr & Hev & _).
  - reflexivity.
  - reflexivity.
  - intros c _. by exists (JDict [("pattern", VStr "*.txt")]).
  - by exists tool_msgs, st', evs.
Defined.

(** C2, the code at the failing input. The provider sends one tool call
    whose argument text is [{]: [json.loads] raises outside of any handler, the
    call of [process_user_input] ends with that exception, and the
    conversation keeps the assistant turn with its request and no tool
    message. The next user input is then sent to the provider with the
    request still unanswered. *)
Lemma malformed_arguments_leave_request_unanswered :
  let turn := {| cm_content := None; cm_tool_calls := Some [bad_call] |} in
  let run := process_user_input bad_json_host "m" [] "hi" empty_state in
  run.1 = Raise (Exception "JSONDecodeError"
            "Expecting property name enclosed in double quotes: line 1 column 2 (char 1)")
  ∧ messages run.2 = [user_message "hi"; model_dump turn]
  ∧ ∃ evs,
      trace (process_user_input bad_json_host "m" [] "again" run.2).2
      = trace run.2
        ++ EvChat "m" [user_message "hi"; model_dump turn; user_message "again"]
             "auto" :: evs.
Proof.
  cbv zeta. split; [reflexivity|]. split; [reflexivity|].
  eexists. reflexivity.
Qed.



(** ** The file system *)

Lemma node_at_snoc (fs : gmap path entry) (p : path) (n : string) :
  node_at fs (p ++ [n]) = fs !! (p ++ [n]).
Proof. by destruct p. Qed.

(** Looking a path up goes through its parent. *)
Lemma walk_snoc (fs : gmap path entry) (cur a : path) (n : string) :
  walk fs cur (a ++ [n]) =
  match walk fs cur a with
  | inl e => inl e
  | inr (File _) => inl ENOTDIR
  | inr Dir =>
    match fs !! (cur ++ a ++ [n]) with
    | Some e => inr e
    | None => inl ENOENT
    end
  end.
Proof.
  revert cur. induction a as [|x a IH]; intros cur; simpl.
  - destruct (node_at fs cur) as [[d|]|]; [done| |done].
    by rewrite node_at_snoc.
  - destruct (node_at fs cur) as [[d|]|]; [done| |done].
    rewrite IH. by rewrite <-(app_assoc cur [x]).
Qed.

Lemma os_stat_snoc (fs : gmap path entry) (p : path) (n : string) :
  os_stat fs (p ++ [n]) =
  match os_stat fs p with
  | inl e => inl e
  | inr (File _) => inl ENOTDIR
  | inr Dir =>
    match fs !! (p ++ [n]) with
    | Some e => inr e
    | None => inl ENOENT
    end
  end.
Proof. apply (walk_snoc fs [] p n). Qed.


(** An entry stored at [p] is not seen by a lookup that stays off [p]. *)
Lemma walk_insert_ne (fs : gmap path entry) (p : path) (e : entry)
    (cur rest : path) :
  (∀ k, cur ++ take k rest ≠ p) →
  walk (<[p := e]> fs) cur rest = walk fs cur rest.
Proof.
  revert cur. induction rest as [|n rest IH]; intros cur Hne.
  - simpl. destruct cur as [|c cur]; [done|]. simpl.
    rewrite lookup_insert_ne; [done|].
    intros ->. apply (Hne 0%nat). simpl. by rewrite app_nil_r.
  - simpl.
    assert (node_at (<[p := e]> fs) cur = node_at fs cur) as ->.
    { destruct cur as [|c cur]; [done|]. simpl.
      rewrite lookup_insert_ne; [done|].
      intros ->. apply (Hne 0%nat). simpl. by rewrite app_nil_r. }
    destruct (node_at fs cur) as [[d|]|]; [done| |done].
    apply IH. intros k Heq. apply (Hne (S k)). simpl.
    by rewrite <-Heq, <-app_assoc.
Qed.

(** Storing an entry in a directory makes it what a lookup finds there. *)
Lemma os_stat_insert (fs : gmap path entry) (p : path) (n : string)
    (e : entry) :
  os_stat fs p = inr Dir →
  os_stat (<[p ++ [n] := e]> fs) (p ++ [n]) = inr e.
Proof.
  intros Hdir. rewrite os_stat_snoc. unfold os_stat.
  rewrite walk_insert_ne.
  - fold (os_stat fs p). rewrite Hdir. by rewrite lookup_insert_eq.
  - intros k Heq. apply (f_equal length) in Heq. simpl in Heq.
    rewrite length_take, length_app in Heq. simpl in Heq. lia.
Qed.

Lemma snoc_removelast (p : path) :
  p ≠ [] → ∃ n, p = removelast p ++ [n].
Proof.
  intros Hne. destruct (exists_last Hne) as (q & n & ->).
  exists n. by rewrite removelast_last.
Qed.

Lemma os_mkdir_is_dir (fs fs' : gmap path entry) (p : path) :
  os_mkdir fs p = inr fs' → os_stat fs' p = inr Dir.
Proof.
  unfold os_mkdir. destruct p as [|c p]; [done|].
  destruct (snoc_removelast (c :: p)) as [n Hp]; [done|].
  set (q := c :: p) in *. clearbody q.
  destruct (os_stat fs (removelast q)) as [|[d|]] eqn:Hparent; [done..|].
  destruct (fs !! q); [done|]. intros [= <-].
  rewrite Hp at 1 2. by apply os_stat_insert.
Qed.


Lemma os_write_stat (fs fs' : gmap path entry) (p : path) (data : string) :
  os_write fs p data = inr fs' → os_stat fs' p = inr (File data).
Proof.
  unfold os_write. destruct p as [|c p]; [done|].
  destruct (snoc_removelast (c :: p)) as [n Hp]; [done|].
  set (q := c :: p) in *. clearbody q.
  destruct (os_stat fs (removelast q)) as [|[d|]] eqn:Hparent; [done..|].
  assert (os_stat (<[q := File data]> fs) q = inr (File data)) as Hstat.
  { rewrite Hp at 1 2. by apply os_stat_insert. }
  destruct (fs !! q) as [[d|]|]; [|done|]; by intros [= <-].
Qed.





Global Instance same_but_fs_refl : Reflexive same_but_fs.
Proof. by intros st. Qed.

Global Instance same_but_fs_trans : Transitive same_but_fs.
Proof.
  intros a b c (H1 & H2 & H3) (H4 & H5 & H6). repeat split; congruence.
Qed.

Lemma os_mkdir_inr (fs fs' : gmap path entry) (p : path) :
  os_mkdir fs p = inr fs' → p ≠ [] ∧ fs !! p = None ∧ fs' = <[p := Dir]> fs.
Proof.
  unfold os_mkdir. destruct p as [|c p]; [done|].
  destruct (os_stat fs (removelast (c :: p))) as [|[d|]]; [done..|].
  destruct (fs !! (c :: p)) eqn:Hp; [done|]. by intros [= <-].
Qed.

Lemma only_new_dirs_refl (p : path) (fs : gmap path entry) :
  only_new_dirs p fs fs.
Proof. intros k. by left. Qed.

Lemma only_new_dirs_insert (p : path) (fs : gmap path entry) :
  p ≠ [] → fs !! p = None → only_new_dirs p fs (<[p := Dir]> fs).
Proof.
  intros Hne Hp k. destruct (decide (p = k)) as [<-|Hk].
  - right. rewrite lookup_insert_eq. repeat split; try done.
    exists []. by rewrite app_nil_r.
  - left. by rewrite lookup_insert_ne.
Qed.

Lemma os_write_inr (fs fs' : gmap path entry) (p : path) (data : string) :
  os_write fs p data = inr fs' →
  p ≠ [] ∧ fs !! p ≠ Some Dir ∧ fs' = <[p := File data]> fs.
Proof.
  unfold os_write. destruct p as [|c p]; [done|].
  destruct (os_stat fs (removelast (c :: p))) as [|[d|]]; [done..|].
  destruct (fs !! (c :: p)) as [[d|]|] eqn:Hp; [|done|]; by intros [= <-].
Qed.

Lemma only_new_dirs_trans (p q : path) (a b c : gmap path entry) :
  (∀ k r, p = k ++ r → ∃ r', q = k ++ r') →
  only_new_dirs p a b → only_new_dirs q b c → only_new_dirs q a c.
Proof.
  intros Hpq Hab Hbc k.
  destruct (Hbc k) as [Heq|(Hnone & Hdir & Hne & r & Hr)];
    destruct (Hab k) as [Heq'|(Hnone' & Hdir' & Hne' & r' & Hr')].
  - left. congruence.
  - right. rewrite Heq. repeat split; try done. by eapply Hpq.
  - right. rewrite <-Heq'. repeat split; try done. by exists r.
  - congruence.
Qed.


Lemma put_fs_id (st : state) : put_fs (fs st) st = st.
Proof. by destruct st. Qed.

Lemma same_but_fs_put_fs (fs' : gmap path entry) (st : state) :
  same_but_fs st (put_fs fs' st).
Proof. done. Qed.

(** ** The calls to the operating system *)

Section Calls.
Context (H : host).


(** [Path.is_dir()] answers [True] for directories only. *)
Lemma path_is_dir_true (st : state) (p : path) :
  path_is_dir H st p = Ok true → os_stat (fs st) p = inr Dir.
Proof.
  unfold path_is_dir, sys_stat.
  destruct (os_refuses H st (SysStat p)) as [e|].
  - destruct e; try done; by destruct (is_dir_ignores H _).
  - destruct (os_stat (fs st) p) as [e|[d|]]; try done.
    destruct e; try done; by destruct (is_dir_ignores H _).
Qed.


Lemma sys_mkdir_run (p : path) (st : state) :
  sys_mkdir H p st =
  match os_refuses H st (SysMkdir p) with
  | Some e => (Ok (Some e), st)
  | None =>
    match os_mkdir (fs st) p with
    | inl e => (Ok (Some e), st)
    | inr fs' => (Ok None, put_fs fs' st)
    end
  end.
Proof.
  unfold sys_mkdir, mbind, M_bind, get_state, set_fs.
  destruct (os_refuses H st (SysMkdir p)); [done|].
  by destruct (os_mkdir (fs st) p).
Qed.

Lemma unless_is_dir_run (e : errno) (p : path) (st : state) :
  unless_is_dir H e p st =
  match path_is_dir H st p with
  | Ok true => (Ok (), st)
  | Ok false => (Raise (os_error H e p), st)
  | Raise e' => (Raise e', st)
  end.
Proof.
  unfold unless_is_dir, mbind, M_bind, get_state, lift.
  by destruct (path_is_dir H st p) as [[|]|].
Qed.

Lemma open_write_run (p : path) (st : state) :
  open_write H p st =
  match os_refuses H st (SysOpenWrite p) with
  | Some e => (Raise (os_error H e p), st)
  | None =>
    match os_write (fs st) p "" with
    | inl e => (Raise (os_error H e p), st)
    | inr fs' => (Ok (), put_fs fs' st)
    end
  end.
Proof.
  unfold open_write, mbind, M_bind, get_state, set_fs.
  destruct (os_refuses H st (SysOpenWrite p)); [done|].
  by destruct (os_write (fs st) p "").
Qed.

Lemma write_close_run (p : path) (encoded : string) (st : state) :
  write_close H p encoded st =
  match os_refuses H st (SysWrite p) with
  | Some e =>
    (Raise (io_error e),
     put_fs (<[p := File (torn_write H st p encoded)]> (fs st)) st)
  | None => (Ok (), put_fs (<[p := File encoded]> (fs st)) st)
  end.
Proof.
  unfold write_close, mbind, M_bind, get_state, set_fs.
  by destruct (os_refuses H st (SysWrite p)).
Qed.

(** What one [os.mkdir] does: nothing but the state's file system changes,
    and that by a new directory at [p] at most, which is there when no
    error is returned. *)
Lemma sys_mkdir_inv (p : path) (st : state) :
  ∃ r st', sys_mkdir H p st = (Ok r, st')
    ∧ same_but_fs st st'
    ∧ only_new_dirs p (fs st) (fs st')
    ∧ (r = None → os_stat (fs st') p = inr Dir)
    ∧ (r ≠ None → st' = st).
Proof.
  rewrite sys_mkdir_run.
  destruct (os_refuses H st (SysMkdir p)) as [e|].
  { exists (Some e), st. split; [done|]. split; [done|].
    split; [apply only_new_dirs_refl|]. by split. }
  destruct (os_mkdir (fs st) p) as [e|fs'] eqn:Hmk.
  { exists (Some e), st. split; [done|]. split; [done|].
    split; [apply only_new_dirs_refl|]. by split. }
  exists None, (put_fs fs' st). split; [done|]. split; [done|].
  pose proof (os_mkdir_is_dir _ _ _ Hmk) as Hdir.
  apply os_mkdir_inr in Hmk as (Hne & Hp & ->).
  split; [by apply only_new_dirs_insert|]. by split.
Qed.

Lemma unless_is_dir_inv (e : errno) (p : path) (st : state) :
  (unless_is_dir H e p st).2 = st
  ∧ ((unless_is_dir H e p st).1 = Ok () → os_stat (fs st) p = inr Dir).
Proof.
  rewrite unless_is_dir_run.
  destruct (path_is_dir H st p) as [[|]|e'] eqn:Hd; [|done..].
  split; [done|]. intros _. by apply path_is_dir_true.
Qed.

Lemma mkdir_exist_ok_inv (p : path) (st : state) :
  same_but_fs st (mkdir_exist_ok H p st).2
  ∧ only_new_dirs p (fs st) (fs (mkdir_exist_ok H p st).2)
  ∧ ((mkdir_exist_ok H p st).1 = Ok () →
     os_stat (fs (mkdir_exist_ok H p st).2) p = inr Dir).
Proof.
  unfold mkdir_exist_ok, mbind, M_bind.
  destruct (sys_mkdir_inv p st) as (r & st' & -> & Hsame & Hnew & Hdir & Hst).
  destruct r as [e|]; [|by auto].
  rewrite (Hst ltac:(done)) in *.
  assert (same_but_fs st (unless_is_dir H e p st).2
          ∧ only_new_dirs p (fs st) (fs (unless_is_dir H e p st).2)
          ∧ ((unless_is_dir H e p st).1 = Ok () →
             os_stat (fs (unless_is_dir H e p st).2) p = inr Dir)) as Hun.
  { destruct (unless_is_dir_inv e p st) as [-> Hd].
    split; [done|]. split; [apply only_new_dirs_refl|done]. }
  destruct e; try exact Hun.
  split; [done|]. split; [apply only_new_dirs_refl|done].
Qed.

(** What [mkdir(parents=True, exist_ok=True)] does, also when it fails
    half-way: nothing but the file system changes, and that by new
    directories on the path only; when it returns, the path is a
    directory. *)
Lemma mkdir_parents_inv (rp : list string) (st : state) :
  same_but_fs st (mkdir_parents H rp st).2
  ∧ only_new_dirs (rev rp) (fs st) (fs (mkdir_parents H rp st).2)
  ∧ ((mkdir_parents H rp st).1 = Ok () →
     os_stat (fs (mkdir_parents H rp st).2) (rev rp) = inr Dir).
Proof.
  revert st. induction rp as [|n rp IH]; intros st;
    cbn [mkdir_parents]; unfold mbind, M_bind.
  - destruct (sys_mkdir_inv (rev []) st)
      as (r & st' & -> & Hsame & Hnew & Hdir & Hst).
    destruct r as [e|]; [|by auto].
    rewrite (Hst ltac:(done)) in *.
    destruct (unless_is_dir_inv e (rev []) st) as [Hun Hd].
    destruct e; try (rewrite Hun; split; [done|];
                     split; [apply only_new_dirs_refl|done]).
    split; [done|]. split; [apply only_new_dirs_refl|done].
  - destruct (sys_mkdir_inv (rev (n :: rp)) st)
      as (r & st' & -> & Hsame & Hnew & Hdir & Hst).
    destruct r as [e|]; [|by auto].
    rewrite (Hst ltac:(done)) in *.
    destruct (unless_is_dir_inv e (rev (n :: rp)) st) as [Hun Hd].
    destruct e; try (rewrite Hun; split; [done|];
                     split; [apply only_new_dirs_refl|done]).
    destruct (IH st) as (Hsame1 & Hnew1 & _).
    destruct (mkdir_parents H rp st) as [[[]|e] st1]; cbn [fst snd] in *.
    + destruct (mkdir_exist_ok_inv (rev (n :: rp)) st1)
        as (Hsame2 & Hnew2 & Hdir2).
      split; [by etransitivity|]. split; [|done].
      eapply only_new_dirs_trans; [|exact Hnew1|exact Hnew2].
      intros k r Hr. exists (r ++ [n]). simpl. by rewrite Hr, app_assoc.
    + split; [done|]. split; [|done].
      intros k. destruct (Hnew1 k) as [?|(? & ? & ? & r & Hr)]; [by left|].
      right. repeat split; try done. exists (r ++ [n]).
      simpl. by rewrite Hr, app_assoc.
Qed.





End Calls.




(** ** Directory listings *)

Global Instance str_le_total : Total str_le.
Proof. intros a b. apply String.leb_total. Qed.








(** C7, the code at the failing input. Of the two subdirectories [a] and [a.b]
    the listing shows [a.b] first, although [a] comes first alphabetically:
    the lines are what is sorted, and in them [a] is followed by [/], which
    comes after [.]. *)
Lemma list_files_sorts_lines_not_names :
  list_files demo_host [] (VStr ".") dotted_state
  = (Ok ("Contents of /:" +:+ nl +:+ dir_line "a.b" +:+ nl +:+ dir_line "a"),
     dotted_state)
  ∧ str_le "a" "a.b"
  ∧ ¬ Sorted str_le ["a.b"; "a"].
Proof.
  split; [vm_compute; reflexivity|]. split; [reflexivity|].
  intros Hs. inversion Hs as [|? ? _ Hhd]; subst.
  inversion Hhd as [|? ? Hle]; subst. vm_compute in Hle. discriminate.
Qed.

(** ** What the tools keep *)

Section Keeps.
Context (R : relation state) `{!Reflexive R, !Transitive R}.

Lemma keeps_mret {A} (a : A) : keeps R (mret a).
Proof. intros st. simpl. reflexivity. Qed.

Lemma keeps_raise {A} (e : exn) : keeps R (@raise A e).
Proof. intros st. simpl. reflexivity. Qed.

Lemma keeps_lift {A} (r : result A) : keeps R (lift r).
Proof. intros st. simpl. reflexivity. Qed.

Lemma keeps_get_state : keeps R get_state.
Proof. intros st. simpl. reflexivity. Qed.

Lemma keeps_bind {A B} (m : M A) (f : A → M B) :
  keeps R m → (∀ a, keeps R (f a)) → keeps R (m ≫= f).
Proof.
  intros Hm Hf st. unfold mbind, M_bind. specialize (Hm st).
  destruct (m st) as [[a|e] st1]; simpl in *; [|done].
  etransitivity; [exact Hm|apply Hf].
Qed.

Lemma keeps_try {A} (body : M A) (handler : exn → M A) :
  keeps R body → (∀ e, keeps R (handler e)) → keeps R (try_except body handler).
Proof.
  intros Hm Hf st. unfold try_except. specialize (Hm st).
  destruct (body st) as [[a|e] st1]; simpl in *; [done|].
  etransitivity; [exact Hm|apply Hf].
Qed.
End Keeps.

(** The calls that change the state, one lemma per relation they keep. *)
Create HintDb keeps discriminated.

(** Goes through a method body: binds, handlers, case distinctions, and the
    state-changing calls recorded in the hint database. *)
Ltac keeps_step :=
  first
    [ apply keeps_mret; apply _ | apply keeps_raise; apply _
    | apply keeps_lift; apply _ | apply keeps_get_state; apply _
    | solve [auto 1 with keeps nocore]
    | apply keeps_bind; [apply _| |intros ?]
    | apply keeps_try; [apply _| |intros ?]
    | match goal with
      | |- keeps _ (match ?x with _ => _ end) => destruct x
      | |- keeps _ (let '(_, _) := ?x in _) => destruct x
      end ].

Ltac keeps_body := repeat keeps_step.

Lemma keeps_set_fs (fs' : gmap path entry) : keeps same_but_fs (set_fs fs').
Proof. by intros st. Qed.

Lemma keeps_mkdir_parents (H : host) (rp : list string) :
  keeps same_but_fs (mkdir_parents H rp).
Proof. intros st. apply mkdir_parents_inv. Qed.

Global Hint Resolve keeps_set_fs keeps_mkdir_parents : keeps.

(** A method whose body is wrapped in [try ... except Exception] with a
    handler that returns a text always returns a text. *)
Lemma try_except_returns {A} (body : M A) (handler : exn → A) (st : state) :
  ∃ a st', try_except body (λ e, mret (handler e)) st = (Ok a, st').
Proof.
  unfold try_except. destruct (body st) as [[a|e] st']; by eauto.
Qed.

(** X1. None of the six tools raises, whatever values it is given (a text,
    a number, [None], ...) and whatever the file system, the shell, the glob
    or the search provider do: each returns a text. *)
Theorem executors_never_raise (H : host) (current_directory : path)
    (a b : pyval) (st : state) :
  (∃ text st', read_file H current_directory a st = (Ok text, st'))
  ∧ (∃ text st', write_file H current_directory a b st = (Ok text, st'))
  ∧ (∃ text st', list_files H current_directory a st = (Ok text, st'))
  ∧ (∃ text st', find_files H a st = (Ok text, st'))
  ∧ (∃ text st', run_command H a st = (Ok text, st'))
  ∧ (∃ text st', web_search H a b st = (Ok text, st')).
Proof. repeat split; apply try_except_returns. Qed.

(** X2. Reading a file, listing a directory and searching by pattern
    change nothing: the state after the call is the state before it, for
    every argument, also when the tool answers with an error text. *)
Theorem reading_tools_change_nothing (H : host) (current_directory : path)
    (a : pyval) (st : state) :
  (read_file H current_directory a st).2 = st
  ∧ (list_files H current_directory a st).2 = st
  ∧ (find_files H a st).2 = st.
Proof.
  assert (keeps eq (read_file H current_directory a)) as Hread.
  { unfold read_file. keeps_body. }
  assert (keeps eq (list_files H current_directory a)) as Hlist.
  { unfold list_files. keeps_body. }
  assert (keeps eq (find_files H a)) as Hfind.
  { unfold find_files. keeps_body. }
  split; [|split]; symmetry; [apply Hread|apply Hlist|apply Hfind].
Qed.

(** ** Only allowed calls leave the process *)

Section Guarded.
Context (H : host) (model : string) (current_directory : path).

Global Instance guarded_refl : Reflexive (guarded model).
Proof. intros st. split; [done|]. exists []. by rewrite app_nil_r. Qed.

Global Instance guarded_trans : Transitive (guarded model).
Proof.
  intros a b c (Henv & evs & Htr & Hall) (Henv' & evs' & Htr' & Hall').
  split; [congruence|]. exists (evs ++ evs').
  split; [by rewrite Htr', Htr, app_assoc|].
  apply Forall_app. split; [done|]. by rewrite <-Henv.
Qed.

Lemma guarded_same_but_fs (st st' : state) :
  same_but_fs st st' → guarded model st st'.
Proof.
  intros (_ & Henv & Htr). split; [done|]. exists []. by rewrite app_nil_r.
Qed.

Lemma keeps_guarded_of_same_but_fs {A} (m : M A) :
  keeps same_but_fs m → keeps (guarded model) m.
Proof. intros Hm st. apply guarded_same_but_fs, Hm. Qed.

Lemma guarded_set_fs (fs' : gmap path entry) : keeps (guarded model) (set_fs fs').
Proof. by apply keeps_guarded_of_same_but_fs, keeps_set_fs. Qed.

Lemma guarded_append_message (m : message) :
  keeps (guarded model) (append_message m).
Proof. intros st. split; [done|]. exists []. by rewrite app_nil_r. Qed.

Lemma guarded_chat (msgs : list message) : keeps (guarded model) (chat H model msgs).
Proof.
  intros st. split; [done|]. exists [EvChat model msgs "auto"].
  split; [done|]. by repeat constructor.
Qed.

Lemma guarded_run_shell (cmd first : string) :
  head (split cmd) = Some first → first ∈ allowed_commands →
  keeps (guarded model) (run_shell H cmd).
Proof.
  intros Hhead Hin st. unfold run_shell.
  destruct (subprocess_run H st cmd) as [r fs']. simpl.
  split; [done|]. exists [EvSubprocess cmd true]. split; [done|].
  repeat constructor. by exists first.
Qed.

Lemma guarded_mkdir_parents (rp : list string) :
  keeps (guarded model) (mkdir_parents H rp).
Proof. by apply keeps_guarded_of_same_but_fs, keeps_mkdir_parents. Qed.

Local Hint Resolve guarded_set_fs guarded_append_message guarded_chat
  guarded_mkdir_parents : keeps.

Lemma guarded_read_file (p : pyval) :
  keeps (guarded model) (read_file H current_directory p).
Proof. unfold read_file. keeps_body. Qed.

Lemma guarded_write_file (p c : pyval) :
  keeps (guarded model) (write_file H current_directory p c).
Proof. unfold write_file, write_text. keeps_body. Qed.

Lemma guarded_list_files (p : pyval) :
  keeps (guarded model) (list_files H current_directory p).
Proof. unfold list_files. keeps_body. Qed.

Lemma guarded_find_files (p : pyval) : keeps (guarded model) (find_files H p).
Proof. unfold find_files. keeps_body. Qed.

Lemma guarded_run_command (c : pyval) : keeps (guarded model) (run_command H c).
Proof.
  destruct c as [| | |cmd|]; try solve [unfold run_command; keeps_body].
  intros st. rewrite run_command_split.
  destruct (split cmd) as [|first rest] eqn:Hs; [reflexivity|].
  destruct (bool_decide (first ∈ allowed_commands)) eqn:Hin; [|reflexivity].
  apply bool_decide_eq_true in Hin.
  assert (keeps (guarded model) (run_shell H cmd)) as Hshell.
  { apply (guarded_run_shell cmd first); [by rewrite Hs|done]. }
  revert st. change (keeps (guarded model) (try_except
    (result ← run_shell H cmd;
     if Z.eqb (returncode result) 0 then
       if bool_decide (stdout result = "")
       then mret (Fore.GREEN +:+ "✅ Command '" +:+ cmd
                  +:+ "' executed successfully with no output"
                  +:+ Style.RESET_ALL)
       else mret (Fore.GREEN +:+ "✅ Command output:"
                  +:+ Style.RESET_ALL +:+ nl +:+ stdout result)
     else mret (Fore.RED +:+ "❌ Command failed with error:"
                +:+ Style.RESET_ALL +:+ nl +:+ stderr result))
    (λ e, mret (Fore.RED +:+ "Error executing command '" +:+ cmd
                +:+ "': " +:+ exn_str e +:+ Style.RESET_ALL)))).
  keeps_body.
Qed.

(** While the key is in the environment, so once the check of [web_search]
    has passed. *)
Definition guarded_with_key (key : string) (st st' : state) : Prop :=
  environ st !! "EXA_API_KEY" = Some key → guarded model st st'.

Lemma guarded_with_key_refl (key : string) : Reflexive (guarded_with_key key).
Proof. intros st _. reflexivity. Qed.

Lemma guarded_with_key_trans (key : string) : Transitive (guarded_with_key key).
Proof.
  intros a b c Hab Hbc Hkey. specialize (Hab Hkey).
  etransitivity; [exact Hab|]. apply Hbc. destruct Hab as [-> _]. done.
Qed.

Lemma guarded_http_post (key : string) (data : search_request) :
  key ≠ "" → sr_use_autoprompt data = true →
  keeps (guarded_with_key key)
    (http_post H "https://api.exa.ai/search"
       [("Content-Type", "application/json"); ("x-api-key", key)] data).
Proof.
  intros Hne Hauto st Hkey. split; [done|].
  eexists [_]. split; [done|]. repeat constructor; [done|]. by exists key.
Qed.

Lemma guarded_web_search (q n : pyval) : keeps (guarded model) (web_search H q n).
Proof.
  intros st. unfold web_search, try_except.
  unfold mbind at 1, M_bind at 1, get_state.
  destruct (environ st !! "EXA_API_KEY") as [key|] eqn:Hkey; [|reflexivity].
  destruct key as [|c key]; [reflexivity|].
  set (k := String c key) in *.
  match goal with
  | |- guarded _ _ (match ?body st with _ => _ end).2 =>
    assert (keeps (guarded_with_key k) body) as Hbody
  end.
  { pose proof (guarded_with_key_refl k). pose proof (guarded_with_key_trans k).
    pose proof (guarded_http_post k) as Hpost.
    repeat first
      [ apply keeps_mret; assumption | apply keeps_lift; assumption
      | apply Hpost; done
      | apply keeps_bind; [assumption| |intros ?]
      | match goal with
        | |- keeps _ (match ?x with _ => _ end) => destruct x
        end ]. }
  specialize (Hbody st Hkey).
  match goal with
  | |- guarded _ _ (match ?body st with _ => _ end).2 =>
    destruct (body st) as [[text|e] st']
  end; exact Hbody.
Qed.

Lemma guarded_call1 (fname : string) (sig : list (string * option pyval))
    (f : pyval → M string) (params : pyjson) :
  (∀ a, keeps (guarded model) (f a)) →
  keeps (guarded model) (call1 H fname sig f params).
Proof. intros Hf. unfold call1. keeps_body. Qed.

Lemma guarded_call2 (fname : string) (sig : list (string * option pyval))
    (f : pyval → pyval → M string) (params : pyjson) :
  (∀ a b, keeps (guarded model) (f a b)) →
  keeps (guarded model) (call2 H fname sig f params).
Proof. intros Hf. unfold call2. keeps_body. Qed.

Lemma guarded_execute_tool (tool_name : string) (params : pyjson) :
  keeps (guarded model) (execute_tool H current_directory tool_name params).
Proof.
  unfold execute_tool, execute_tool_in.
  destruct (lookup_tool _ tool_name) as [f|] eqn:Hf; [|keeps_body].
  apply keeps_try; [apply _| |intros e; keeps_body].
  unfold tools in Hf. simpl in Hf.
  repeat (case_decide;
          [injection Hf as <-;
           first [ apply guarded_call1; intros ? | apply guarded_call2; intros ? ? ];
           auto using guarded_read_file, guarded_write_file, guarded_list_files,
             guarded_find_files, guarded_run_command, guarded_web_search
          |]).
  discriminate.
Qed.

Lemma guarded_for_each (tcs : list tool_call) :
  keeps (guarded model) (for_each (handle_tool_call H current_directory) tcs).
Proof.
  pose proof guarded_execute_tool as Hexec.
  induction tcs as [|tc tcs IH]; simpl; [keeps_body|].
  unfold handle_tool_call. keeps_body.
Qed.

Lemma guarded_rounds (n : nat) (final_response : string) :
  keeps (guarded model) (rounds H model current_directory n final_response).
Proof.
  pose proof guarded_for_each as Hfor.
  induction n as [|n IH]; cbn [rounds]; keeps_body.
Qed.

(** X3. Whatever the model asks for and whatever the collaborators answer,
    the calls one [process_user_input] lets out of the process are allowed
    ones: every shell command is run through the shell and has a first
    token in the allowed set, every HTTP request goes to the Exa endpoint
    with the configured non-empty key, every chat request is for the
    agent's model with automatic tool choice. The environment is never
    changed. The same holds for a single dispatch. *)
Theorem only_allowed_calls_leave (user_input tool_name : string)
    (params : pyjson) (st : state) :
  (∃ evs,
     trace (process_user_input H model current_directory user_input st).2
     = trace st ++ evs
     ∧ Forall (allowed_event model (environ st)) evs
     ∧ environ (process_user_input H model current_directory user_input st).2
       = environ st)
  ∧ (∃ evs,
       trace (execute_tool H current_directory tool_name params st).2
       = trace st ++ evs
       ∧ Forall (allowed_event model (environ st)) evs).
Proof.
  split.
  - assert (keeps (guarded model)
              (process_user_input H model current_directory user_input)) as Hk.
    { pose proof guarded_rounds. unfold process_user_input. keeps_body. }
    destruct (Hk st) as (Henv & evs & Htr & Hall). by exists evs.
  - destruct (guarded_execute_tool tool_name params st) as (_ & evs & ? & ?).
    by exists evs.
Qed.
End Guarded.

(** ** Binding the arguments of a tool call *)

Lemma given_is_Some (items : list (string * pyval)) (p : string) :
  p ∈ items.*1 ↔ is_Some ((list_to_map items : gmap string pyval) !! p).
Proof.
  split.
  - intros Hin.
    destruct ((list_to_map items : gmap string pyval) !! p) as [v|] eqn:Hp;
      [by eauto|].
    by apply not_elem_of_list_to_map in Hp.
  - intros [v Hv]. destruct (decide (p ∈ items.*1)) as [|Hnot]; [done|].
    apply (not_elem_of_list_to_map_1 (M := gmap string)) in Hnot. congruence.
Qed.

Lemma missing_nil (given : gmap string pyval)
    (sig : list (string * option pyval)) :
  omap (λ p, match given !! p.1, p.2 with
             | None, None => Some p.1
             | _, _ => None
             end) sig = []
  ↔ ∀ p, (p, None) ∈ sig → is_Some (given !! p).
Proof.
  induction sig as [|[p d] sig IH]; simpl.
  { split; [|done]. intros _ p Hin. by apply elem_of_nil in Hin. }
  destruct (given !! p) as [v|] eqn:Hp.
  - rewrite IH. split.
    + intros Hall q Hin. apply elem_of_cons in Hin as [[= -> _]|Hin];
        [by rewrite Hp|by apply Hall].
    + intros Hall q Hin. apply Hall. by right.
  - destruct d as [d|].
    + rewrite IH. split.
      * intros Hall q Hin. apply elem_of_cons in Hin as [[=]|Hin].
        by apply Hall.
      * intros Hall q Hin. apply Hall. by right.
    + split; [done|]. intros Hall.
      destruct (Hall p) as [v Hv]; [by left|congruence].
Qed.

Lemma bound_length (given : gmap string pyval)
    (sig : list (string * option pyval)) :
  (∀ p, (p, None) ∈ sig → is_Some (given !! p)) →
  length (omap (λ p, match given !! p.1 with
                     | Some v => Some v
                     | None => p.2
                     end) sig) = length sig.
Proof.
  induction sig as [|[p d] sig IH]; simpl; [done|]. intros Hall.
  assert (length (omap (λ p, match given !! p.1 with
                             | Some v => Some v
                             | None => p.2
                             end) sig) = length sig) as Hrest.
  { apply IH. intros q Hin. apply Hall. by right. }
  destruct (given !! p) as [v|] eqn:Hp; simpl; [f_equal; apply Hrest|].
  destruct d as [d|]; simpl; [f_equal; apply Hrest|].
  destruct (Hall p) as [v Hv]; [by left|congruence].
Qed.

(** Binding succeeds exactly for the calls that fit the parameters, none
    of which is called [self]. *)
Lemma bind_kwargs_Ok (H : host) (fname : string)
    (sig : list (string * option pyval)) (params : pyjson) :
  "self" ∉ sig.*1 →
  (∃ args, bind_kwargs H fname sig params = Ok args) ↔ fits sig params.
Proof.
  intros Hself. unfold bind_kwargs, fits. destruct params as [items|v];
    [|split; [by intros [? ?]|by intros (? & ? & _)]].
  destruct (list_find (λ kv, kv.1 = "self" ∨ kv.1 ∉ sig.*1) items)
    as [[i [k v]]|] eqn:Hfind.
  - split; [intros [? Hb]; by case_decide|].
    intros (items' & [= <-] & Hkeys & _).
    apply list_find_Some in Hfind as (Hin & Hbad & _).
    apply list_elem_of_lookup_2 in Hin.
    apply (list_elem_of_fmap_2 fst) in Hin. apply Hkeys in Hin.
    simpl in *. destruct Hbad as [->|Hnot]; by auto.
  - apply list_find_None in Hfind.
    assert (∀ k, k ∈ items.*1 → k ∈ sig.*1) as Hkeys.
    { intros k Hk. apply list_elem_of_fmap in Hk as ([k' v] & -> & Hin).
      rewrite Forall_forall in Hfind. specialize (Hfind _ Hin).
      apply dec_stable. intros Hnot. apply Hfind. by right. }
    destruct (omap _ sig) as [|m ms] eqn:Hmiss.
    + pose proof (proj1 (missing_nil (list_to_map items) sig) Hmiss) as Hreq.
      split; [|by eauto].
      intros _. exists items. split; [done|]. split; [done|].
      intros p Hp. by apply given_is_Some, Hreq.
    + split; [by intros [? ?]|]. intros (items' & [= <-] & _ & Hreq).
      assert (omap (λ p, match (list_to_map items : gmap string pyval) !! p.1,
                               p.2 with
                         | None, None => Some p.1
                         | _, _ => None
                         end) sig = []) as Hnil.
      { apply missing_nil. intros p Hp. by apply given_is_Some, Hreq. }
      assert (m :: ms = []) as Hcontra; [|done].
      rewrite <-Hmiss. exact Hnil.
Qed.

Lemma bind_kwargs_length (H : host) (fname : string)
    (sig : list (string * option pyval)) (params : pyjson)
    (args : list pyval) :
  bind_kwargs H fname sig params = Ok args → length args = length sig.
Proof.
  unfold bind_kwargs. destruct params as [items|v]; [|done].
  destruct (list_find _ items) as [[i [k v]]|]; [by case_decide|].
  destruct (omap _ sig) as [|m ms] eqn:Hmiss; [|done].
  intros [= <-]. apply bound_length.
  exact (proj1 (missing_nil (list_to_map items) sig) Hmiss).
Qed.

(** A call that does not fit is answered by a [TypeError]; for arguments
    that are no mapping its text shows the method with its module. *)
Lemma bind_kwargs_Raise (H : host) (fname : string)
    (sig : list (string * option pyval)) (params : pyjson) :
  "self" ∉ sig.*1 →
  ¬ fits sig params →
  ∃ msg, bind_kwargs H fname sig params = Raise (TypeError msg)
         ∧ ∀ v, params = JVal v →
                msg = module_name H +:+ ".CodingAgent." +:+ fname
                      +:+ "() argument after ** must be a mapping, not "
                      +:+ py_type v.
Proof.
  intros Hself Hnot.
  assert (∀ args, bind_kwargs H fname sig params ≠ Ok args) as Hno.
  { intros args Hb. apply Hnot, (bind_kwargs_Ok H fname); by eauto. }
  unfold bind_kwargs in *. destruct params as [items|v].
  - destruct (list_find _ items) as [[i [k v]]|];
      [case_decide; (eexists; split; [reflexivity|by intros ? ?])|].
    destruct (omap _ sig) as [|m ms]; [by destruct (Hno _ eq_refl)|].
    eexists; split; [reflexivity|by intros ? ?].
  - eexists. split; [reflexivity|]. by intros v' [= <-].
Qed.

(** ** Dispatch and the advertised tools *)

Section Dispatch.
Context (H : host) (current_directory : path).

Local Abbreviation dispatch := (execute_tool H current_directory).

(** Each method is registered under its name, behind the binding of its
    parameters. *)
Lemma lookup_tool_signature (tool_name : string)
    (sig : list (string * option pyval)) :
  (tool_name, sig) ∈ signatures →
  ("self" ∉ sig.*1)
  ∧ ∃ f, lookup_tool (tools H current_directory) tool_name = Some f
       ∧ ∀ params e st,
           bind_kwargs H tool_name sig params = Raise e →
           f params st = (Raise e, st).
Proof.
  intros Hin. unfold signatures in Hin.
  repeat (apply elem_of_cons in Hin as [[= -> ->]|Hin];
          [split;
           [simpl; intros Hs;
            repeat (apply elem_of_cons in Hs as [Hs|Hs]; [discriminate Hs|]);
            by apply elem_of_nil in Hs
           |eexists; split; [reflexivity|];
            intros params e st Hbind;
            unfold call1, call2, mbind, M_bind, lift; by rewrite Hbind]|]).
  by apply elem_of_nil in Hin.
Qed.

(** A call that cannot be bound ends in the handler of [execute_tool],
    before the tool is entered. *)
Lemma execute_tool_unbound (tool_name : string)
    (sig : list (string * option pyval)) (params : pyjson) (e : exn)
    (st : state) :
  (tool_name, sig) ∈ signatures →
  bind_kwargs H tool_name sig params = Raise e →
  dispatch tool_name params st
  = (Ok (Fore.RED +:+ "Error executing " +:+ tool_name +:+ ": "
         +:+ exn_str e +:+ Style.RESET_ALL), st).
Proof.
  intros Hin Hbind.
  destruct (lookup_tool_signature _ _ Hin) as (_ & f & Hf & Hraise).
  unfold execute_tool, execute_tool_in, try_except.
  by rewrite Hf, (Hraise _ _ _ Hbind).
Qed.

(** A bound call runs the tool, and the handler of [execute_tool] has
    nothing to catch. *)
Lemma execute_tool_bound1 (tool_name : string)
    (sig : list (string * option pyval)) (f : pyval → M string)
    (params : pyjson) (a : pyval) (st : state) :
  lookup_tool (tools H current_directory) tool_name
  = Some (call1 H tool_name sig f) →
  bind_kwargs H tool_name sig params = Ok [a] →
  (∃ text st', f a st = (Ok text, st')) →
  dispatch tool_name params st = f a st.
Proof.
  intros Hf Hbind (text & st' & Hrun).
  unfold execute_tool, execute_tool_in. rewrite Hf.
  unfold call1, try_except, mbind, M_bind, lift. by rewrite Hbind, Hrun.
Qed.

Lemma execute_tool_bound2 (tool_name : string)
    (sig : list (string * option pyval)) (f : pyval → pyval → M string)
    (params : pyjson) (a b : pyval) (st : state) :
  lookup_tool (tools H current_directory) tool_name
  = Some (call2 H tool_name sig f) →
  bind_kwargs H tool_name sig params = Ok [a; b] →
  (∃ text st', f a b st = (Ok text, st')) →
  dispatch tool_name params st = f a b st.
Proof.
  intros Hf Hbind (text & st' & Hrun).
  unfold execute_tool, execute_tool_in. rewrite Hf.
  unfold call2, try_except, mbind, M_bind, lift. by rewrite Hbind, Hrun.
Qed.

(** X4. Dispatch passes the arguments by name and applies the defaults of
    the method: a call carrying the parameters of a tool, in any order, is
    the call of that tool's method on those values, [list_files] without
    [path] lists ["."] and [web_search] without [num_results] asks for 5.
    The handler of [execute_tool] adds nothing to what the tool returns. *)
Theorem execute_tool_passes_arguments_by_name (v w : pyval) (st : state) :
  dispatch "read_file" (JDict [("path", v)]) st
  = read_file H current_directory v st
  ∧ dispatch "write_file" (JDict [("path", v); ("content", w)]) st
    = write_file H current_directory v w st
  ∧ dispatch "write_file" (JDict [("content", w); ("path", v)]) st
    = write_file H current_directory v w st
  ∧ dispatch "list_files" (JDict []) st
    = list_files H current_directory (VStr ".") st
  ∧ dispatch "list_files" (JDict [("path", v)]) st
    = list_files H current_directory v st
  ∧ dispatch "find_files" (JDict [("pattern", v)]) st = find_files H v st
  ∧ dispatch "run_command" (JDict [("cmd", v)]) st = run_command H v st
  ∧ dispatch "web_search" (JDict [("query", v)]) st
    = web_search H v (VInt 5) st
  ∧ dispatch "web_search" (JDict [("query", v); ("num_results", w)]) st
    = web_search H v w st
  ∧ dispatch "web_search" (JDict [("num_results", w); ("query", v)]) st
    = web_search H v w st.
Proof.
  repeat split;
    first
      [ eapply execute_tool_bound1;
        [reflexivity|reflexivity|apply try_except_returns]
      | eapply execute_tool_bound2;
        [reflexivity|reflexivity|apply try_except_returns] ].
Qed.

(** X5. A call that does not fit the parameters of the tool it names (the
    arguments are no object, a key is [self] or no parameter, or a
    parameter without default is missing) never enters the tool: the state
    is unchanged and the answer is the error text of [execute_tool]
    carrying the text of the [TypeError] that binding the arguments
    raises; for arguments that are no object that text shows the method
    with the module it is defined in. *)
Theorem ill_fitting_call_is_refused (tool_name : string)
    (sig : list (string * option pyval)) (params : pyjson) (st : state) :
  (tool_name, sig) ∈ signatures →
  ¬ fits sig params →
  ∃ msg,
    bind_kwargs H tool_name sig params = Raise (TypeError msg)
    ∧ dispatch tool_name params st
      = (Ok (Fore.RED +:+ "Error executing " +:+ tool_name +:+ ": "
             +:+ msg +:+ Style.RESET_ALL), st)
    ∧ ∀ v, params = JVal v →
           msg = module_name H +:+ ".CodingAgent." +:+ tool_name
                 +:+ "() argument after ** must be a mapping, not "
                 +:+ py_type v.
Proof.
  intros Hin Hnot.
  destruct (lookup_tool_signature _ _ Hin) as (Hself & _).
  destruct (bind_kwargs_Raise H tool_name sig params Hself Hnot)
    as (msg & Hbind & Hmsg).
  exists msg. split; [done|]. split; [|done].
  by rewrite (execute_tool_unbound _ _ _ _ _ Hin Hbind).
Qed.

(** X6. The tools advertised to the model are the tools the dispatcher
    implements, in the same order, and each is advertised with the
    parameters its method has: an argument object fits the advertised
    schema (keys among the properties, required keys present) exactly when
    the call can be bound, that is when dispatch does not refuse it. *)
Theorem advertised_tools_are_implemented (d : tool_definition) :
  td_name <$> get_tools_definition = (tools H current_directory).*1
  ∧ (d ∈ get_tools_definition →
     ∃ sig f,
       (td_name d, sig) ∈ signatures
       ∧ lookup_tool (tools H current_directory) (td_name d) = Some f
       ∧ ∀ params,
           fits_schema d params
           ↔ ∃ args, bind_kwargs H (td_name d) sig params = Ok args
                     ∧ length args = length sig).
Proof.
  split; [reflexivity|]. intros Hin.
  assert (∀ sig, "self" ∉ sig.*1 →
                 prop_name <$> td_properties d = sig.*1 →
                 (∀ p, p ∈ td_required d ↔ (p, None) ∈ sig) →
                 ∀ params,
                   fits_schema d params
                   ↔ ∃ args, bind_kwargs H (td_name d) sig params = Ok args
                             ∧ length args = length sig) as Hsame.
  { intros sig Hself Hprops Hreq params. split.
    - intros (items & -> & Hkeys & Hrequired).
      assert (fits sig (JDict items)) as Hfits.
      { exists items. split; [done|]. rewrite <-Hprops. split; [done|].
        intros p Hp. by apply Hrequired, Hreq. }
      apply (bind_kwargs_Ok H (td_name d)) in Hfits as [args Hbind]; [|done].
      exists args. split; [done|]. by eapply bind_kwargs_length.
    - intros (args & Hbind & _).
      assert (fits sig params) as (items & -> & Hkeys & Hrequired).
      { apply (bind_kwargs_Ok H (td_name d)); by eauto. }
      exists items. split; [done|]. rewrite Hprops. split; [done|].
      intros p Hp. by apply Hrequired, Hreq. }
  assert (∀ (p q : string) (sig : list (string * option pyval)),
            (p, None) ∈ (q, None) :: sig ↔ p = q ∨ (p, None) ∈ sig) as Hnone.
  { intros p q sig. rewrite elem_of_cons.
    split; [intros [[= ->]|Hp]; by auto|intros [->|Hp]; by auto]. }
  assert (∀ (p q : string) (v : pyval) (sig : list (string * option pyval)),
            (p, None) ∈ (q, Some v) :: sig ↔ (p, None) ∈ sig) as Hsome.
  { intros p q v sig. rewrite elem_of_cons.
    split; [by intros [[=]|Hp]|by auto]. }
  unfold get_tools_definition in Hin.
  repeat (apply elem_of_cons in Hin as [->|Hin];
          [eexists _, _; split; [|split; [reflexivity|]];
           [unfold signatures; repeat constructor|];
           apply Hsame;
           [simpl; intros Hs;
            repeat (apply elem_of_cons in Hs as [Hs|Hs]; [discriminate Hs|]);
            by apply elem_of_nil in Hs
           |reflexivity|];
           simpl; intros p;
           rewrite ?Hnone, ?Hsome, ?elem_of_cons, !elem_of_nil; tauto|]).
  by apply elem_of_nil in Hin.
Qed.
End Dispatch.

Lemma ill_fitting_call_is_refused_witness :
  execute_tool demo_host [] "read_file" (JVal (VOther "list" "[]")) empty_state
  = (Ok (Fore.RED +:+ "Error executing read_file: "
         +:+ "__main__.CodingAgent.read_file() argument after ** must be a mapping, not list"
         +:+ Style.RESET_ALL),
     empty_state).
Proof.
  destruct (ill_fitting_call_is_refused demo_host [] "read_file"
              [("path", None)] (JVal (VOther "list" "[]")) empty_state)
    as (msg & _ & Hrun & Hmsg).
  - unfold signatures. by left.
  - by intros (items & Hitems & _).
  - rewrite Hrun, (Hmsg _ eq_refl). reflexivity.
Defined.

Lemma advertised_tools_are_implemented_witness :
  ∃ sig f,
    ("web_search", sig) ∈ signatures
    ∧ lookup_tool (tools demo_host []) "web_search" = Some f
    ∧ ∃ args,
        bind_kwargs demo_host "web_search" sig (JDict [("query", VStr "rocq")])
        = Ok args
        ∧ length args = length sig.
Proof.
  destruct (advertised_tools_are_implemented demo_host []
              {| td_name := "web_search";
                 td_description := "Search the web for information";
                 td_properties :=
                   [ {| prop_name := "query"; prop_type := "string";
                        prop_description := "The search query" |};
                     {| prop_name := "num_results"; prop_type := "integer";
                        prop_description :=
                          "Number of results to return (max 10, default 5)" |} ];
                 td_required := ["query"] |})
    as [_ Hd].
  destruct Hd as (sig & f & Hsig & Hf & Hfit).
  { unfold get_tools_definition. repeat constructor. }
  exists sig, f. split; [exact Hsig|]. split; [exact Hf|].
  apply Hfit. exists [("query", VStr "rocq")]. split; [done|]. split.
  - intros k Hk. apply elem_of_cons in Hk as [->|Hk]; [by left|].
    by apply elem_of_nil in Hk.
  - intros p Hp. apply elem_of_cons in Hp as [->|Hp]; [by left|].
    by apply elem_of_nil in Hp.
Defined.

(** ** What writing a file changes *)

(** Whatever [write_text] does, it changes the file system at its path
    only, where there was no directory and is a regular file afterwards. *)
Lemma write_text_inv (H : host) (p : path) (content : pyval) (st : state) :
  fs (write_text H p content st).2 = fs st
  ∨ (fs st !! p ≠ Some Dir
     ∧ ∃ data, fs (write_text H p content st).2 = <[p := File data]> (fs st)).
Proof.
  unfold write_text, mbind, M_bind, lift.
  destruct (text_data content) as [data|e]; [|by left].
  rewrite open_write_run.
  destruct (os_refuses H st (SysOpenWrite p)) as [e|]; [by left|].
  destruct (os_write (fs st) p "") as [e|fs'] eqn:Hopen; [by left|].
  apply os_write_inr in Hopen as (_ & Hnodir & ->). right. split; [done|].
  destruct (write_encode H data) as [encoded|e]; [|by eauto].
  rewrite write_close_run.
  destruct (os_refuses H _ (SysWrite p)) as [e|]; cbn [fst snd fs put_fs];
    rewrite insert_insert_eq; by eauto.
Qed.

(** X7. Whatever happens, [write_file] leaves the conversation, the
    environment and the trace alone, and in the file system it deletes
    nothing and replaces no directory: an entry differs afterwards only if
    it is the target, where no directory was and a regular file is now
    (empty, torn or complete when the writing failed on the way), or a
    proper ancestor of the target that was missing and is now a
    directory. *)
Theorem write_file_touches_only_its_path (H : host)
    (current_directory : path) (p : string) (content : pyval) (st : state) :
  let target := normal_form current_directory p in
  let st' := (write_file H current_directory (VStr p) content st).2 in
  same_but_fs st st'
  ∧ ∀ k, fs st' !! k = fs st !! k
         ∨ (k = target ∧ fs st !! k ≠ Some Dir
            ∧ ∃ data, fs st' !! k = Some (File data))
         ∨ (fs st !! k = None ∧ fs st' !! k = Some Dir
            ∧ ∃ r, target = k ++ r ∧ r ≠ []).
Proof.
  intros target st'. split.
  { assert (keeps same_but_fs
              (write_file H current_directory (VStr p) content)) as Hk
      by (unfold write_file, write_text; keeps_body).
    apply Hk. }
  subst st'. unfold write_file, try_except, mbind, M_bind, lift, truediv,
    resolve.
  destruct (if has_surrogate p then _ else _) as [e|]; [intros k; by left|].
  destruct (has_nul p); [intros k; by left|]. fold target.
  destruct (mkdir_parents_inv H (rev (removelast target)) st)
    as (_ & Hmk & _).
  rewrite rev_involutive in Hmk.
  destruct (mkdir_parents H (rev (removelast target)) st) as [r st1].
  cbn [snd] in Hmk.
  assert (∀ k, fs st1 !! k = fs st !! k
               ∨ (fs st !! k = None ∧ fs st1 !! k = Some Dir
                  ∧ ∃ r, target = k ++ r ∧ r ≠ [])) as Hdirs.
  { intros k. destruct (Hmk k) as [?|(Hnone & Hdir & Hne & r' & Hr)];
      [by left|].
    right. repeat split; try done.
    destruct (decide (target = [])) as [Ht|Ht].
    - rewrite Ht in Hr. simpl in Hr. by destruct k.
    - destruct (snoc_removelast target Ht) as [n Hn].
      exists (r' ++ [n]). split; [|by destruct r'].
      by rewrite Hn at 1; rewrite Hr, app_assoc. }
  destruct r as [[]|e];
    [|intros k; destruct (Hdirs k); by auto].
  assert (∀ k, fs (write_text H target content st1).2 !! k = fs st !! k
               ∨ (k = target ∧ fs st !! k ≠ Some Dir
                  ∧ ∃ data, fs (write_text H target content st1).2 !! k
                            = Some (File data))
               ∨ (fs st !! k = None
                  ∧ fs (write_text H target content st1).2 !! k = Some Dir
                  ∧ ∃ r, target = k ++ r ∧ r ≠ [])) as Hall.
  { intros k.
    destruct (write_text_inv H target content st1)
      as [->|(Hnodir & data & ->)]; [destruct (Hdirs k); by auto|].
    destruct (decide (target = k)) as [<-|Hk].
    - rewrite lookup_insert_eq. right. left. split; [done|].
      split; [|by eauto].
      destruct (Hdirs target) as [<-|(_ & Hd & _)]; [done|congruence].
    - rewrite lookup_insert_ne by done. destruct (Hdirs k); by auto. }
  by destruct (write_text H target content st1) as [[text|e] st2].
Qed.



(** A content with a lone surrogate, which the encoder does not take,
    empties the file it was to replace: the file was opened before the
    encoding failed. *)
Lemma unencodable_content_empties_the_file :
  let lone := String "237" (String "160" (String "128" "")) in
  let run := write_file demo_host [] (VStr "a") (VStr lone) blocked_state in
  has_surrogate lone = true
  ∧ run.1 ≠ Ok (written_text "a" lone)
  ∧ fs run.2 = {[ ["a"] := File "" ]}.
Proof.
  cbv zeta. split; [reflexivity|]. split; [vm_compute; discriminate|].
  vm_compute. reflexivity.
Qed.

(** ** Paths outside the working directory *)

Lemma str_app_cons (x : ascii) (a b : string) :
  String x a +:+ b = String x (a +:+ b).
Proof. reflexivity. Qed.










(** ** The search request *)

(** X10. With a search key configured, [web_search] sends exactly one
    request, to the fixed address, carrying the key, the query as given and
    the result count as converted, with no bound applied to it; a count
    that does not convert sends nothing. The state changes by that one
    event only. A failing request and a status other than 200 come back as
    texts, the status without the body being read. *)
Theorem web_search_sends_one_request (H : host) (query num_results : pyval)
    (key : string) (st : state) :
  environ st !! "EXA_API_KEY" = Some key →
  key ≠ "" →
  match int_of H num_results with
  | Raise e =>
    web_search H query num_results st
    = (Ok ("Error executing web search: " +:+ exn_str e), st)
  | Ok n =>
    let url := "https://api.exa.ai/search" in
    let headers :=
      [("Content-Type", "application/json"); ("x-api-key", key)] in
    let data := {| sr_query := query; sr_num_results := n;
                   sr_use_autoprompt := true |} in
    ∃ text,
      web_search H query num_results st
      = (Ok text, push_event (EvHttpPost url headers data) st)
      ∧ match requests_post H st url headers data with
        | Raise e => text = "Error executing web search: " +:+ exn_str e
        | Ok response =>
          status_code response ≠ 200 →
          text = "Error: Exa API returned status code "
                 +:+ pretty (status_code response)
        end
  end.
Proof.
  intros Hkey Hne.
  unfold web_search, try_except, mbind, M_bind, get_state, lift, http_post.
  rewrite Hkey. destruct key as [|c key]; [done|].
  destruct (int_of H num_results) as [n|e]; [|done]. cbv zeta.
  destruct (requests_post H st _ _ _) as [response|e];
    [|eexists; split; reflexivity].
  destruct (Z.eqb_spec (status_code response) 200) as [Hs|Hs].
  - destruct (response_json response) as [[[|item items]|]|e];
      (eexists; split; [reflexivity|done]).
  - eexists; split; reflexivity.
Qed.

Lemma web_search_sends_one_request_witness :
  environ keyed_state !! "EXA_API_KEY" = Some "k"
  ∧ "k" ≠ ""
  ∧ web_search demo_host (VStr "rocq") (VInt 500) keyed_state
    = (Ok "Error executing web search: unreachable",
       push_event
         (EvHttpPost "https://api.exa.ai/search"
            [("Content-Type", "application/json"); ("x-api-key", "k")]
            {| sr_query := VStr "rocq"; sr_num_results := 500;
               sr_use_autoprompt := true |})
         keyed_state).
Proof.
  assert (environ keyed_state !! "EXA_API_KEY" = Some "k") as Hkey
    by (vm_compute; reflexivity).
  assert ("k" ≠ "") as Hne by discriminate.
  split; [exact Hkey|]. split; [exact Hne|].
  assert (∃ text,
    web_search demo_host (VStr "rocq") (VInt 500) keyed_state
    = (Ok text,
       push_event
         (EvHttpPost "https://api.exa.ai/search"
            [("Content-Type", "application/json"); ("x-api-key", "k")]
            {| sr_query := VStr "rocq"; sr_num_results := 500;
               sr_use_autoprompt := true |})
         keyed_state)
    ∧ text = "Error executing web search: " +:+ "unreachable") as Hw.
  { exact (web_search_sends_one_request demo_host (VStr "rocq") (VInt 500)
             "k" keyed_state Hkey Hne). }
  destruct Hw as (text & Hrun & ->). exact Hrun.
Defined.

Lemma len_app (a b : string) : len (a +:+ b) = (len a + len b)%nat.
Proof.
  induction a as [|c a IH]; [done|].
  rewrite str_app_cons. cbn [len]. rewrite IH. by destruct (is_continuation c).
Qed.

Lemma len_slice_to (n : nat) (s : string) : (len (slice_to n s) ≤ n)%nat.
Proof.
  revert n. induction s as [|c s IH]; intros n; cbn [slice_to len]; [lia|].
  destruct (is_continuation c) eqn:Hc.
  - cbn [len]. rewrite Hc. apply IH.
  - destruct n as [|n]; cbn [len]; [lia|]. rewrite Hc.
    specialize (IH n). lia.
Qed.

(** X11. The description [web_search] prints for a result is bounded: it
    is the result's text when that has at most 150 code points, and else
    its first 150 code points followed by three dots, so never more than
    153 code points. *)
Theorem search_descriptions_are_bounded (i : nat) (item : search_item) :
  ∃ snippet,
    format_item i item
    = str_of_nat i +:+ ". " +:+ default "No title" (item_title item) +:+ nl
      +:+ "   URL: " +:+ default "No link" (item_url item) +:+ nl
      +:+ "   Description: " +:+ snippet +:+ nl +:+ nl
    ∧ (len snippet ≤ 153)%nat
    ∧ ((len (default "" (item_text item)) ≤ 150)%nat →
       snippet = default "" (item_text item))
    ∧ ((150 < len (default "" (item_text item)))%nat →
       snippet = slice_to 150 (default "" (item_text item)) +:+ "...").
Proof.
  unfold format_item. set (text := default "" (item_text item)).
  destruct (decide (150 < len text)%nat) as [Hlong|Hshort].
  - exists (slice_to 150 text +:+ "..."). split; [done|]. split; [|split].
    + rewrite len_app. pose proof (len_slice_to 150 text).
      change (len "...") with 3%nat. lia.
    + lia.
    + done.
  - exists text. split; [done|]. split; [lia|]. split; [done|lia].
Qed.

(** ** The conversation history *)

Lemma requests_quiet (evs : list event) :
  filter is_chat evs = [] → requests evs = [].
Proof.
  induction evs as [|ev evs IH]; [done|].
  destruct ev as [| |m msgs choice].
  - rewrite filter_cons_False by (by simpl; auto). apply IH.
  - rewrite filter_cons_False by (by simpl; auto). apply IH.
  - by rewrite filter_cons_True.
Qed.

Lemma requests_app (evs evs' : list event) :
  requests (evs ++ evs') = requests evs ++ requests evs'.
Proof. apply omap_app. Qed.

Lemma sent_before_app (seen a b : list message) :
  sent_before seen (a ++ b)
  = sent_before seen a ++ sent_before (seen ++ a) b.
Proof.
  revert seen. induction a as [|m a IH]; intros seen; simpl.
  - by rewrite app_nil_r.
  - by rewrite IH, <-!app_assoc.
Qed.

Lemma sent_before_tool_messages (seen : list message)
    (tcs : list tool_call) (texts : list string) :
  sent_before seen (zip_with tool_message tcs texts) = [].
Proof.
  revert seen texts. induction tcs as [|tc tcs IH]; intros seen texts; [done|].
  destruct texts as [|t texts]; [done|]. simpl. apply IH.
Qed.

Lemma last_tool_messages (tcs : list tool_call) (texts : list string) :
  tcs ≠ [] → length texts = length tcs →
  ∃ tc text, last (zip_with tool_message tcs texts) = Some (tool_message tc text).
Proof.
  revert texts. induction tcs as [|tc tcs IH]; intros texts; [done|].
  destruct texts as [|t texts]; [done|]. intros _ [= Hlen].
  cbn [zip_with]. destruct tcs as [|tc' tcs].
  - destruct texts; [|done]. by exists tc, t.
  - destruct (IH texts) as (tc0 & t0 & Hlast); [done..|].
    exists tc0, t0. by rewrite last_cons, Hlast.
Qed.

Section History.
Context (H : host) (model : string) (current_directory : path).

Local Abbreviation handle := (handle_tool_call H current_directory).
Local Abbreviation loop := (rounds H model current_directory).
Local Abbreviation process := (process_user_input H model current_directory).

(** What the passes of the loop add to the conversation, what each request
    to the provider carried, and where the text returned comes from. *)
Lemma rounds_history (n : nat) (final_response : string) (st : state) :
  ∃ added evs unanswered,
    messages (loop n final_response st).2 = messages st ++ added
    ∧ trace (loop n final_response st).2 = trace st ++ evs
    ∧ requests evs = sent_before (messages st) added ++ unanswered
    ∧ (unanswered = []
       ∨ (unanswered = [messages (loop n final_response st).2]
          ∧ ∃ e, (loop n final_response st).1 = Raise e))
    ∧ ∀ x, (loop n final_response st).1 = Ok x →
        (∃ m, last added = Some m ∧ msg_role m = assistant
              ∧ tool_call_free m ∧ x = or_empty (msg_content m))
        ∨ (x = final_response
           ∧ ((n = 0%nat ∧ added = [])
              ∨ ∃ tc text, last added = Some (tool_message tc text))).
Proof.
  revert st. induction n as [|n IH]; intros st.
  { exists [], [], []. simpl. rewrite !app_nil_r.
    split; [done|]. split; [done|]. split; [done|]. split; [by left|].
    intros x [= <-]. right. split; [done|]. by left. }
  rewrite rounds_S. cbv zeta.
  set (ev := EvChat model (messages st) "auto").
  assert (∀ e : exn, ∃ added evs unanswered,
    messages (@Raise string e, push_event ev st).2 = messages st ++ added
    ∧ trace (@Raise string e, push_event ev st).2 = trace st ++ evs
    ∧ requests evs = sent_before (messages st) added ++ unanswered
    ∧ (unanswered = []
       ∨ (unanswered = [messages (@Raise string e, push_event ev st).2]
          ∧ ∃ e', (@Raise string e, push_event ev st).1 = Raise e'))
    ∧ ∀ x, (@Raise string e, push_event ev st).1 = Ok x →
        (∃ m, last added = Some m ∧ msg_role m = assistant
              ∧ tool_call_free m ∧ x = or_empty (msg_content m))
        ∨ (x = final_response
           ∧ ((S n = 0%nat ∧ added = [])
              ∨ ∃ tc text, last added = Some (tool_message tc text))))
    as Hfail.
  { intros e. exists [], [ev], [messages st]. simpl. rewrite app_nil_r.
    split; [done|]. split; [done|]. split; [done|].
    split; [right; by eauto|]. by intros x. }
  destruct (chat_completions_create H st model (messages st))
    as [[|rm rest]|e]; [apply Hfail| |apply Hfail].
  clear Hfail.
  assert (tool_call_free (model_dump rm) → ∃ added evs unanswered,
    messages (Ok (or_empty (cm_content rm)),
              push_message (model_dump rm) (push_event ev st)).2
    = messages st ++ added
    ∧ trace (Ok (or_empty (cm_content rm)),
             push_message (model_dump rm) (push_event ev st)).2
      = trace st ++ evs
    ∧ requests evs = sent_before (messages st) added ++ unanswered
    ∧ (unanswered = []
       ∨ (unanswered
          = [messages (Ok (or_empty (cm_content rm)),
                       push_message (model_dump rm) (push_event ev st)).2]
          ∧ ∃ e, (Ok (or_empty (cm_content rm)),
                  push_message (model_dump rm) (push_event ev st)).1
                 = Raise e))
    ∧ ∀ x, (Ok (or_empty (cm_content rm)),
            push_message (model_dump rm) (push_event ev st)).1 = Ok x →
        (∃ m, last added = Some m ∧ msg_role m = assistant
              ∧ tool_call_free m ∧ x = or_empty (msg_content m))
        ∨ (x = final_response
           ∧ ((S n = 0%nat ∧ added = [])
              ∨ ∃ tc text, last added = Some (tool_message tc text))))
    as Hfinal.
  { intros Hfree. exists [model_dump rm], [ev], []. simpl.
    split; [done|]. split; [done|]. split; [done|]. split; [by left|].
    intros x [= <-]. left. by exists (model_dump rm). }
  destruct (cm_tool_calls rm) as [[|tc tcs]|] eqn:Htc;
    [apply Hfinal; right; simpl; by rewrite Htc
    | clear Hfinal
    | apply Hfinal; left; simpl; by rewrite Htc].
  destruct (for_each_tool_calls H current_directory (tc :: tcs)
              (push_message (model_dump rm) (push_event ev st)))
    as (r & st3 & texts & evs1 & Hfe & Hmsg & Hlen & Htr & Hev & Hok & _).
  rewrite Hfe. simpl in Hmsg, Htr. rewrite <-app_assoc in Hmsg.
  set (tool_msgs := zip_with tool_message (tc :: tcs) texts) in *.
  assert (requests (ev :: evs1) = [messages st]) as Hreq.
  { change (ev :: evs1) with ([ev] ++ evs1).
    by rewrite requests_app, (requests_quiet _ Hev). }
  assert (sent_before (messages st) ([model_dump rm] ++ tool_msgs)
          = [messages st]) as Hsent.
  { rewrite sent_before_app. unfold tool_msgs.
    by rewrite sent_before_tool_messages. }
  destruct r as [u|e].
  - destruct (IH st3)
      as (added2 & evs2 & un2 & Hmsg2 & Htr2 & Hreq2 & Hun2 & Hret2).
    exists (([model_dump rm] ++ tool_msgs) ++ added2), (ev :: evs1 ++ evs2),
           un2.
    split; [by rewrite Hmsg2, Hmsg, <-app_assoc|].
    split; [rewrite Htr2, Htr; by rewrite <-!app_assoc|].
    split.
    { change (ev :: evs1 ++ evs2) with ((ev :: evs1) ++ evs2).
      rewrite requests_app, Hreq, Hreq2, sent_before_app, Hsent, Hmsg.
      by rewrite <-!app_assoc. }
    split; [exact Hun2|].
    intros x Hx.
    destruct (Hret2 x Hx)
      as [(m & Hlast & Hm)|[-> [[-> ->]|(tc0 & t0 & Hlast)]]].
    + left. exists m. split; [|done]. by rewrite last_app, Hlast.
    + right. split; [done|]. right. rewrite app_nil_r.
      destruct (last_tool_messages (tc :: tcs) texts)
        as (tc0 & t0 & Hlast); [done|by eapply Hok|].
      exists tc0, t0. unfold tool_msgs. by rewrite last_app, Hlast.
    + right. split; [done|]. right. exists tc0, t0.
      by rewrite last_app, Hlast.
  - exists ([model_dump rm] ++ tool_msgs), (ev :: evs1), []. cbn [fst snd].
    split; [done|]. split; [by rewrite Htr, <-app_assoc|].
    split; [by rewrite Hreq, Hsent|]. split; [by left|]. by intros x.
Qed.


(** X13. Where the answer of a turn comes from: when the turn returns, the
    conversation ends either with an assistant message that requests no
    tool, and the answer is that message's text (the empty text when it has
    none), or with the result of a tool, the passes being used up, and the
    answer is the empty text. *)
Theorem answer_closes_history (user_input x : string) (st : state) :
  let st' := (process user_input st).2 in
  (process user_input st).1 = Ok x →
  (∃ m, last (messages st') = Some m ∧ msg_role m = assistant
        ∧ tool_call_free m ∧ x = or_empty (msg_content m))
  ∨ (x = "" ∧ ∃ tc text, last (messages st') = Some (tool_message tc text)).
Proof.
  intros st'. subst st'. rewrite process_user_input_unfold.
  destruct (rounds_history 5 "" (push_message (user_message user_input) st))
    as (added & evs & unanswered & Hmsg & _ & _ & _ & Hret).
  intros Hx. rewrite Hmsg.
  change (messages (push_message (user_message user_input) st))
    with (messages st ++ [user_message user_input]).
  destruct (Hret x Hx) as [(m & Hlast & Hm)|[-> [[[=] _]|(tc & t & Hlast)]]].
  - left. exists m. split; [|done]. by rewrite last_app, Hlast.
  - right. split; [done|]. exists tc, t. by rewrite last_app, Hlast.
Qed.

End History.

Lemma answer_closes_history_witness :
  (process_user_input demo_host "m" [] "hi" empty_state).1 = Ok ""
  ∧ ((∃ m, last (messages (process_user_input demo_host "m" [] "hi"
                             empty_state).2) = Some m
           ∧ msg_role m = assistant ∧ tool_call_free m
           ∧ "" = or_empty (msg_content m))
     ∨ ("" = ""
        ∧ ∃ tc text, last (messages (process_user_input demo_host "m" []
                                       "hi" empty_state).2)
                     = Some (tool_message tc text))).
Proof.
  assert ((process_user_input demo_host "m" [] "hi" empty_state).1 = Ok "")
    as Hx by (vm_compute; reflexivity).
  split; [exact Hx|].
  exact (answer_closes_history demo_host "m" [] "hi" "" empty_state Hx).
Defined.

(** ** What ends a turn *)

Section Failures.
Context (H : host) (model : string) (current_directory : path).

Local Abbreviation handle := (handle_tool_call H current_directory).
Local Abbreviation loop := (rounds H model current_directory).
Local Abbreviation process := (process_user_input H model current_directory).

(** The loop over the tool calls of a turn raises at the first call whose
    argument text does not decode, the calls before it answered. *)
Lemma for_each_raises (tcs : list tool_call) (st st' : state) (e : exn) :
  for_each handle tcs st = (Raise e, st') →
  ∃ answered tc rest texts,
    tcs = answered ++ tc :: rest
    ∧ length texts = length answered
    ∧ messages st' = messages st ++ zip_with tool_message answered texts
    ∧ json_loads H (tc_arguments tc) = Raise e.
Proof.
  revert st. induction tcs as [|tc tcs IH]; intros st; simpl; [done|].
  unfold mbind, M_bind.
  pose proof (handle_tool_call_spec H current_directory tc st) as Hh.
  destruct (json_loads H (tc_arguments tc)) as [j|e0] eqn:Hj.
  - destruct Hh as (text & st1 & evs & -> & Hmsg & _). intros Hr.
    apply IH in Hr as (answered & tc' & rest & texts & -> & Hlen & Hmsg' & Hj').
    exists (tc :: answered), tc', rest, (text :: texts).
    split; [done|]. split; [by simpl; f_equal|]. split; [|done].
    rewrite Hmsg'. simpl. by rewrite Hmsg, <-app_assoc.
  - rewrite Hh. intros [= <- <-]. exists [], tc, tcs, [].
    split; [done|]. split; [done|]. split; [|done]. simpl.
    by rewrite app_nil_r.
Qed.

Lemma rounds_raises (n : nat) (final_response : string) (st : state) (e : exn) :
  (loop n final_response st).1 = Raise e →
  turn_failure H model e (loop n final_response st).2.
Proof.
  revert st. induction n as [|n IH]; intros st; [done|].
  rewrite rounds_S. cbv zeta.
  destruct (chat_completions_create H st model (messages st))
    as [[|rm rest]|e0] eqn:Hchat.
  - intros [= <-]. left. exists st. split; [done|]. right. by split.
  - destruct (cm_tool_calls rm) as [[|tc tcs]|] eqn:Htc; [done| |done].
    destruct (for_each handle (tc :: tcs) _) as [[u|e1] st3] eqn:Hfe.
    + apply IH.
    + intros [= <-].
      apply for_each_raises
        in Hfe as (answered & tc' & rest' & texts & Htcs & Hlen & Hmsg & Hj).
      right. exists (messages st), rm, answered, tc', rest', texts.
      cbn [snd]. rewrite Hmsg. simpl. rewrite <-app_assoc.
      split; [done|]. split; [done|]. split; [by rewrite Htc, Htcs|done].
  - intros [= <-]. left. exists st. split; [done|]. by left.
Qed.

(** X14. A turn is aborted by an exception in three cases only, each tied
    to what the turn did last. The chat provider failed on the request the
    turn sent last, and the exception is the provider's. Or the reply to
    that request had no choice, and the exception is the [IndexError]. Or
    the conversation ends with an assistant message of the turn and the
    results of the first tool calls it asks for, the argument text of the
    next one does not decode, and the exception is the decoder's. No tool,
    whatever it is given and however it fails, aborts the turn. *)
Theorem turn_fails_only_for_provider_or_decoding (user_input : string)
    (st : state) (e : exn) :
  (process user_input st).1 = Raise e →
  turn_failure H model e (process user_input st).2.
Proof. rewrite process_user_input_unfold. apply rounds_raises. Qed.

End Failures.

Lemma turn_fails_only_for_provider_or_decoding_witness :
  (process_user_input bad_json_host "m" [] "hi" empty_state).1
  = Raise (Exception "JSONDecodeError"
             "Expecting property name enclosed in double quotes: line 1 column 2 (char 1)")
  ∧ turn_failure bad_json_host "m"
      (Exception "JSONDecodeError"
         "Expecting property name enclosed in double quotes: line 1 column 2 (char 1)")
      (process_user_input bad_json_host "m" [] "hi" empty_state).2.
Proof.
  assert ((process_user_input bad_json_host "m" [] "hi" empty_state).1
          = Raise (Exception "JSONDecodeError"
                     "Expecting property name enclosed in double quotes: line 1 column 2 (char 1)"))
    as Hrun by reflexivity.
  split; [exact Hrun|].
  exact (turn_fails_only_for_provider_or_decoding bad_json_host "m" [] "hi"
           empty_state _ Hrun).
Defined.
